(** * Maintenance dashboard: the multi-branch query core

    A shallow embedding of the server-side core of the dashboard
    (cost-code service, cache service, branch query executor, multi-branch
    orchestrator, record processing and the row-level permission filter),
    with the properties of the specification stated and settled on it.

    Conventions of the embedding.
    - JavaScript values are the inductive [value]; plain row objects are
      finite maps from property names to values ([gmap string value]).
    - Strings are sequences of 8-bit character codes.  [toUpperCase] and
      [trim] act on the ASCII range (letters a-z, the six ASCII white-space
      characters); other codes are left alone.
    - Code that can throw returns [res]; [Throw] is an exception that
      propagates to the caller.
    - Runtime built-ins whose full definition is outside the repository
      ([JSON.parse], [parseFloat], [Number.prototype.toString]) are section
      variables. *)

From Stdlib Require Import Ascii QArith Qcanon.
From Stdlib Require PrimFloat Uint63.
From stdpp Require Import base numbers option list gmap strings sorting.

(** ** JavaScript values *)

Module JS.

Inductive number :=
| NaN
| PosInf
| NegInf
| Fin (q : Qc).

#[warnings="-register-all"]
Inductive value :=
| VUndefined
| VNull
| VBool (b : bool)
| VNum (n : number)
| VStr (s : string)
| VArr (l : list value).

Inductive error :=
| TypeError (msg : string)
| SyntaxError (msg : string).

Inductive res (A : Type) :=
| Ok (a : A)
| Throw (e : error).
Arguments Ok {A} a.
Arguments Throw {A} e.

Definition bind {A B} (m : res A) (k : A -> res B) : res B :=
  match m with
  | Ok a => k a
  | Throw e => Throw e
  end.

Definition number_eqb (a b : number) : bool :=
  match a, b with
  | PosInf, PosInf => true
  | NegInf, NegInf => true
  | Fin p, Fin q => bool_decide (p = q)
  | _, _ => false
  end.

Definition number_truthy (n : number) : bool :=
  match n with
  | NaN => false
  | Fin q => negb (bool_decide (q = 0%Qc))
  | _ => true
  end.

(** ToBoolean. *)
Definition truthy (v : value) : bool :=
  match v with
  | VUndefined | VNull => false
  | VBool b => b
  | VNum n => number_truthy n
  | VStr s => negb (bool_decide (s = ""))
  | VArr _ => true
  end.

(** [a === b].  Arrays are compared by identity in JavaScript; the
    embedding has no object identities and treats any two array values as
    distinct objects. *)
Definition strict_eq (a b : value) : bool :=
  match a, b with
  | VUndefined, VUndefined => true
  | VNull, VNull => true
  | VBool x, VBool y => bool_decide (x = y)
  | VNum x, VNum y => number_eqb x y
  | VStr x, VStr y => bool_decide (x = y)
  | _, _ => false
  end.

(** SameValueZero, the comparison of [Array.prototype.includes]: as [===]
    except that NaN equals NaN. *)
Definition same_value_zero (a b : value) : bool :=
  match a, b with
  | VNum NaN, VNum NaN => true
  | _, _ => strict_eq a b
  end.

(** Property read [o.k] on a plain object: a missing property reads as
    [undefined]. *)
Definition get (o : gmap string value) (k : string) : value :=
  default VUndefined (o !! k).

(** *** Strings *)

Definition is_upper (c : ascii) : bool :=
  let n := Ascii.nat_of_ascii c in (65 <=? n)%nat && (n <=? 90)%nat.
Definition is_lower (c : ascii) : bool :=
  let n := Ascii.nat_of_ascii c in (97 <=? n)%nat && (n <=? 122)%nat.
Definition is_digit (c : ascii) : bool :=
  let n := Ascii.nat_of_ascii c in (48 <=? n)%nat && (n <=? 57)%nat.

Definition upper_char (c : ascii) : ascii :=
  if is_lower c then Ascii.ascii_of_nat (Ascii.nat_of_ascii c - 32) else c.

Fixpoint toUpperCase (s : string) : string :=
  match s with
  | "" => ""
  | String c s' => String (upper_char c) (toUpperCase s')
  end.

Fixpoint trimStart (s : string) : string :=
  match s with
  | "" => ""
  | String c s' => if Ascii.is_space c then trimStart s' else s
  end.

Definition trimEnd (s : string) : string :=
  String.rev (trimStart (String.rev s)).

Definition trim (s : string) : string := trimEnd (trimStart s).

Fixpoint startsWith (s p : string) : bool :=
  match p, s with
  | "", _ => true
  | String a p', String b s' => bool_decide (a = b) && startsWith s' p'
  | String _ _, "" => false
  end.

(** [s.substring(n)] for [0 <= n]. *)
Fixpoint substring (s : string) (n : nat) : string :=
  match n, s with
  | O, _ => s
  | S n', String _ s' => substring s' n'
  | S _, "" => ""
  end.

Fixpoint filter_chars (p : ascii -> bool) (s : string) : string :=
  match s with
  | "" => ""
  | String c s' => if p c then String c (filter_chars p s') else filter_chars p s'
  end.

(** [s.split(sep)[0]] for a one-character separator: the part before the
    first occurrence of the separator, the whole string when there is none. *)
Fixpoint split_first (sep : ascii) (s : string) : string :=
  match s with
  | "" => ""
  | String c s' => if bool_decide (c = sep) then "" else String c (split_first sep s')
  end.

(** [hay.includes(needle)] on strings. *)
Fixpoint str_includes (hay needle : string) : bool :=
  startsWith hay needle ||
  match hay with
  | "" => false
  | String _ hay' => str_includes hay' needle
  end.

(** Every character of the string satisfies [p]. *)
Fixpoint all_chars (p : ascii -> bool) (s : string) : bool :=
  match s with
  | "" => true
  | String c s' => p c && all_chars p s'
  end.

(** The character codes of a string, in order. *)
Fixpoint chars (s : string) : list ascii :=
  match s with
  | "" => []
  | String c s' => c :: chars s'
  end.

(** [l.filter(p)] for a callback that may throw: the first exception ends
    the traversal. *)
Fixpoint filterM {A} (p : A -> res bool) (l : list A) : res (list A) :=
  match l with
  | [] => Ok []
  | x :: l' =>
      bind (p x) (fun keep =>
      bind (filterM p l') (fun rest =>
      Ok (if keep then x :: rest else rest)))
  end.

(** [l.forEach(x => ...)] for a body that updates a state and may throw. *)
Fixpoint foldM {A S} (f : S -> A -> res S) (l : list A) (s : S) : res S :=
  match l with
  | [] => Ok s
  | x :: l' => bind (f s x) (foldM f l')
  end.

Global Instance error_eq_dec : EqDecision error.
Proof. solve_decision. Defined.

Global Instance res_eq_dec {A} `{EqDecision A} : EqDecision (res A).
Proof. solve_decision. Defined.

End JS.
Import JS.

(** ** costCodeService.js *)

Module CostCodeService.

Definition BRANCH_PREFIXES : list string := ["PMB"; "PTA"; "QTN"; "CPT"].

(** The loop over [BRANCH_PREFIXES] shared by [normalize] and
    [extractBranchFromCode]: the first prefix [p] such that the text starts
    with [p + '-'] or [p + ' ']. *)
Definition find_prefix (normalized : string) : option string :=
  List.find (fun prefix => startsWith normalized (prefix +:+ "-")
                           || startsWith normalized (prefix +:+ " "))
            BRANCH_PREFIXES.

Definition keep_alnum (c : ascii) : bool := is_upper c || is_digit c.

(** [normalize] on a string argument. *)
Definition normalize_string (costCode : string) : string :=
  let normalized := trim costCode in
  let normalized := toUpperCase normalized in
  let normalized :=
    match find_prefix normalized with
    | Some prefix => trim (substring normalized (String.length prefix + 1))
    | None => normalized
    end in
  filter_chars keep_alnum normalized.

(** [normalize(costCode)]: a falsy argument gives the empty string; a truthy
    argument that is not a string has no [trim] method. *)
Definition normalize (costCode : value) : res string :=
  if negb (truthy costCode) then Ok ""
  else match costCode with
       | VStr s => Ok (normalize_string s)
       | _ => Throw (TypeError "costCode.trim is not a function")
       end.

Definition categoryMap : gmap string string :=
  list_to_map [("MNT", "General Maintenance"); ("ELEC", "Electrical");
               ("PLUMB", "Plumbing"); ("HVAC", "HVAC");
               ("FLOOR", "Flooring"); ("ROOF", "Roofing")].

(** [getCategoryFromCode(costCode)].  The table is an object literal; the
    names it inherits from [Object.prototype] all contain lower-case
    letters or underscores, which [normalize] never produces. *)
Definition getCategoryFromCode (costCode : value) : res string :=
  bind (normalize costCode) (fun normalized =>
  let prefix := split_first "-"%char normalized in
  Ok (default "Other" (categoryMap !! prefix))).

(** [extractBranchFromCode(costCode)]; [None] is the [null] result.  There
    is no guard on the argument: [null] and [undefined] have no properties,
    other non-strings have no [trim] method. *)
Definition extractBranchFromCode (costCode : value) : res (option string) :=
  match costCode with
  | VStr s => Ok (find_prefix (toUpperCase (trim s)))
  | VNull => Throw (TypeError "Cannot read properties of null (reading 'trim')")
  | VUndefined =>
      Throw (TypeError "Cannot read properties of undefined (reading 'trim')")
  | _ => Throw (TypeError "costCode.trim is not a function")
  end.

(** [getBaseCode(costCode)] *)
Definition getBaseCode (costCode : value) : res string := normalize costCode.

(** [codesMatch(code1, code2)] *)
Definition codesMatch (code1 code2 : value) : res bool :=
  bind (normalize code1) (fun n1 =>
  bind (normalize code2) (fun n2 =>
  Ok (bool_decide (n1 = n2)))).

(** The value that [extractBranchFromCode] returns: a branch code or [null]. *)
Definition branch_value (o : option string) : value :=
  match o with
  | Some branch => VStr branch
  | None => VNull
  end.

(** [codeOwnedByBranch(costCode, branch)] *)
Definition codeOwnedByBranch (costCode branch : value) : res bool :=
  bind (extractBranchFromCode costCode) (fun owningBranch =>
  Ok (strict_eq (branch_value owningBranch) branch)).

(** [getCostCodesForBranch(costCodes, branch)] *)
Definition getCostCodesForBranch (costCodes : list value) (branch : value)
  : res (list value) :=
  filterM (fun code =>
             bind (extractBranchFromCode code) (fun owningBranch =>
             Ok (strict_eq (branch_value owningBranch) branch
                 || strict_eq (branch_value owningBranch) VNull)))
          costCodes.

(** The body of the [forEach] of [deduplicateCodes], on the pair of [seen]
    and [unique].  A code whose normal form is not empty is a string, so
    the last case of the inner match is never reached. *)
Definition dedup_step (acc : gset string * list string) (code : value)
  : res (gset string * list string) :=
  bind (normalize code) (fun normalized =>
  if negb (bool_decide (normalized = ""))
     && negb (bool_decide (normalized ∈ acc.1)) then
    match code with
    | VStr s => Ok ({[normalized]} ∪ acc.1, acc.2 ++ [s])
    | _ => Ok acc
    end
  else Ok acc).

(** [deduplicateCodes(costCodes)].  [sort()] without a comparator orders
    strings by their character codes. *)
Definition deduplicateCodes (costCodes : list value) : res (list string) :=
  bind (foldM dedup_step costCodes (∅, [])) (fun acc =>
  Ok (merge_sort String.le acc.2)).

(** The body of the [forEach] of [groupByCategory].  The categories are
    the entries of [categoryMap] and 'Other', none of which is a name that
    an object literal inherits; a stored array is truthy. *)
Definition group_step (grouped : gmap string (list value)) (code : value)
  : res (gmap string (list value)) :=
  bind (getCategoryFromCode code) (fun category =>
  let grouped :=
    match grouped !! category with
    | None => <[category := []]> grouped
    | Some _ => grouped
    end in
  Ok (<[category := default [] (grouped !! category) ++ [code]]> grouped)).

(** [groupByCategory(costCodes)] *)
Definition groupByCategory (costCodes : list value) : res (gmap string (list value)) :=
  foldM group_step costCodes ∅.

(** *** Fuzzy matching *)

Import (notations) PrimFloat.

(** [matrix[0][j] = j] for [0 <= j <= len1]: the first row of the matrix
    when the two initial loops are done. *)
Definition first_row (len1 : nat) : list nat := seq 0 (S len1).

(** The inner loop for one row [i]: the entries from column [j] on, given
    the characters of [str1] from position [j - 1] on, the row above from
    column [j - 1] on, and the entry [matrix[i][j - 1]] to the left. *)
Fixpoint fill_row (c2 : ascii) (str1 : list ascii) (above : list nat) (left : nat)
  : list nat :=
  match str1, above with
  | c1 :: str1', diag :: ((up :: _) as above') =>
      let cost := if bool_decide (c1 = c2) then 0 else 1 in
      let entry := Nat.min (Nat.min (left + 1) (up + 1)) (diag + cost) in
      entry :: fill_row c2 str1' above' entry
  | _, _ => []
  end.

(** The outer loop: the rows from [i] on, given the characters of [str2]
    from position [i - 1] on and the row above.  Row [i] starts as [[i]]. *)
Fixpoint fill_rows (str1 str2 : list ascii) (i : nat) (above : list nat)
  : list (list nat) :=
  match str2 with
  | [] => []
  | c2 :: str2' =>
      let row := i :: fill_row c2 str1 above i in
      row :: fill_rows str1 str2' (S i) row
  end.

(** The matrix when the loops are done: [len2 + 1] rows of [len1 + 1]
    entries. *)
Definition levenshtein_matrix (str1 str2 : string) : list (list nat) :=
  let row0 := first_row (String.length str1) in
  row0 :: fill_rows (chars str1) (chars str2) 1 row0.

(** [levenshteinDistance(str1, str2)]: the entry [matrix[len2][len1]]. *)
Definition levenshteinDistance (str1 str2 : string) : nat :=
  default 0 (levenshtein_matrix str1 str2 !! String.length str2
             ≫= (.!! String.length str1)).

(** The edit distance by the recurrence on the first characters; the
    matrix holds it for the prefixes of the two strings, read backwards. *)
Fixpoint edit_distance (s t : list ascii) : nat :=
  match s with
  | [] => length t
  | a :: s' =>
      (fix inner (t : list ascii) : nat :=
         match t with
         | [] => length s
         | b :: t' =>
             Nat.min (Nat.min (edit_distance s' t + 1) (inner t' + 1))
                     (edit_distance s' t' + (if bool_decide (a = b) then 0 else 1))
         end) t
  end.

(** Row [i] of the matrix in terms of [edit_distance], for the reversed
    prefix [rb] of length [i] of the second string. *)
Definition dist_row (str1 : list ascii) (rb : list ascii) : list nat :=
  List.map (fun j => edit_distance (rev (take j str1)) rb) (seq 0 (S (length str1))).

(** [SIMILARITY_THRESHOLD]: JavaScript numbers are binary64 floating-point
    numbers; the literal denotes the one nearest to 0.85. *)
#[warnings="-inexact-float"]
Definition SIMILARITY_THRESHOLD : PrimFloat.float := 0.85%float.

(** A length or a distance as a number; exact below 2^53. *)
Definition number_of_nat (n : nat) : PrimFloat.float :=
  PrimFloat.of_uint63 (Uint63.of_Z (Z.of_nat n)).

(** [calculateSimilarity(str1, str2)] *)
Definition calculateSimilarity (str1 str2 : string) : PrimFloat.float :=
  let maxLen := Nat.max (String.length str1) (String.length str2) in
  if (maxLen =? 0)%nat then 1%float
  else
    let distance := levenshteinDistance str1 str2 in
    PrimFloat.sub 1%float (PrimFloat.div (number_of_nat distance) (number_of_nat maxLen)).

(** [for (const assigned of assignedCodes)]: the elements of an array, the
    characters of a string; the other values are not iterable. *)
Definition iterate (assignedCodes : value) : res (list value) :=
  match assignedCodes with
  | VArr l => Ok l
  | VStr s => Ok (List.map (fun c => VStr (String c "")) (chars s))
  | _ => Throw (TypeError "assignedCodes is not iterable")
  end.

(** The first loop of [findBestMatch]: it returns from the function at the
    first assigned code whose normal form is that of the record code. *)
Fixpoint exact_match (normalized : string) (assignedCodes : list value)
  : res (option value) :=
  match assignedCodes with
  | [] => Ok None
  | assigned :: rest =>
      bind (normalize assigned) (fun normalizedAssigned =>
      if bool_decide (normalizedAssigned = normalized) then Ok (Some assigned)
      else exact_match normalized rest)
  end.

(** The body of the second loop, on the pair of [bestMatch] and
    [bestSimilarity]. *)
Definition fuzzy_step (normalized : string) (best : value * PrimFloat.float)
    (assigned : value) : res (value * PrimFloat.float) :=
  bind (normalize assigned) (fun normalizedAssigned =>
  let similarity := calculateSimilarity normalized normalizedAssigned in
  if PrimFloat.ltb best.2 similarity then Ok (assigned, similarity) else Ok best).

(** [findBestMatch(recordCode, assignedCodes)]; [VNull] is the [null]
    result. *)
Definition findBestMatch (recordCode assignedCodes : value) : res value :=
  bind (normalize recordCode) (fun normalized =>
  bind (iterate assignedCodes) (fun codes =>
  bind (exact_match normalized codes) (fun exact =>
  match exact with
  | Some assigned => Ok assigned
  | None =>
      bind (foldM (fuzzy_step normalized) codes (VNull, SIMILARITY_THRESHOLD))
           (fun best => Ok best.1)
  end))).

(** [v.length === 0] *)
Definition length_is_zero (v : value) : bool :=
  match v with
  | VStr s => (String.length s =? 0)%nat
  | VArr l => (length l =? 0)%nat
  | _ => false
  end.

(** [filterByAssignedCodes(records, assignedCodes)] *)
Definition filterByAssignedCodes (records : list (gmap string value))
    (assignedCodes : value) : res (list (gmap string value)) :=
  if negb (truthy assignedCodes) || length_is_zero assignedCodes then Ok records
  else
    filterM (fun record =>
               bind (findBestMatch (get record "costCode") assignedCodes) (fun match_ =>
               Ok (negb (strict_eq match_ VNull))))
            records.

End CostCodeService.

(** ** cacheService.js *)

Module CacheService.

Section Cache.

(** The cached payloads are arbitrary JavaScript values; [null] is the one
    that [get] also returns on a miss. *)
Variable payload : Type.
Variable null : payload.

(** A stored item.  [createdAt] is the ISO rendering of the clock at
    insertion; the embedding keeps the clock reading itself.  Times are in
    milliseconds. *)
Record item := {
  value : payload;
  expiresAt : Z;
  createdAt : Z
}.

(** [get(key)] at clock reading [now]: the returned value and the cache
    afterwards.  A stored item is an object, hence truthy in [!item]; the
    number [expiresAt] is truthy when it is not zero. *)
Definition get (now : Z) (key : string) (cache : gmap string item)
  : payload * gmap string item :=
  match cache !! key with
  | None => (null, cache)
  | Some it =>
      if negb (bool_decide (expiresAt it = 0%Z)) && bool_decide (expiresAt it < now)%Z
      then (null, delete key cache)
      else (value it, cache)
  end.

(** [set(key, value, ttlSeconds)] at clock reading [now]; a caller that
    omits [ttlSeconds] gets 300. *)
Definition set (now : Z) (key : string) (v : payload) (ttlSeconds : Z)
    (cache : gmap string item) : gmap string item :=
  <[key := {| value := v;
              expiresAt := (now + ttlSeconds * 1000)%Z;
              createdAt := now |}]> cache.

(** [clearPattern(pattern)]: the number of keys deleted and the cache
    afterwards.  The order in which the keys are visited does not show in
    either. *)
Definition clearPattern (pattern : string) (cache : gmap string item)
  : nat * gmap string item :=
  let keysToDelete :=
    List.filter (fun key => startsWith key pattern) (map_to_list cache).*1 in
  (length keysToDelete, foldl (fun c key => delete key c) cache keysToDelete).

(** [clearAll()] *)
Definition clearAll (cache : gmap string item) : nat * gmap string item :=
  (size cache, ∅).

End Cache.

Arguments value {payload} _.
Arguments expiresAt {payload} _.
Arguments createdAt {payload} _.
Arguments get {payload} null now key cache.
Arguments set {payload} now key v ttlSeconds cache.
Arguments clearPattern {payload} pattern cache.
Arguments clearAll {payload} cache.

End CacheService.

(** ** authMiddleware.js: the row-level permission filter *)

Module User.
Record t := {
  role : value;
  branch : value;
  assignedCostCodes : value;
  assignedGroups : value
}.
End User.

Module AuthMiddleware.

Section Runtime.

(** [JSON.parse]: [None] when it throws a SyntaxError.  The parameter ranges
    over the texts whose parsed value lies in [value] (no plain objects). *)
Variable JSON_parse : string -> option value.
(** [Number.prototype.toString]. *)
Variable Number_toString : number -> string.

Fixpoint join (sep : string) (l : list string) : string :=
  match l with
  | [] => ""
  | [x] => x
  | x :: l' => x +:+ sep +:+ join sep l'
  end.

(** ToString. *)
Fixpoint to_string (v : value) : string :=
  match v with
  | VUndefined => "undefined"
  | VNull => "null"
  | VBool b => if b then "true" else "false"
  | VNum n => Number_toString n
  | VStr s => s
  | VArr l =>
      join "," (List.map (fun x => match x with
                                   | VUndefined | VNull => ""
                                   | _ => to_string x
                                   end) l)
  end.

Definition isArray (v : value) : bool :=
  match v with VArr _ => true | _ => false end.

(** [v.length > 0]: strings and arrays have a length; on the other values
    of the universe the property reads [undefined], and [undefined > 0] is
    false. *)
Definition length_gt0 (v : value) : bool :=
  match v with
  | VStr s => (0 <? String.length s)%nat
  | VArr l => (0 <? length l)%nat
  | _ => false
  end.

Definition length_is0 (v : value) : bool :=
  match v with
  | VStr s => (String.length s =? 0)%nat
  | VArr l => (length l =? 0)%nat
  | _ => false
  end.

(** [a.includes(x)]: SameValueZero membership on an array, substring search
    for ToString(x) on a string.  It is only called under
    [hasGroupRestrictions], where [a] has a positive length. *)
Definition includes (a x : value) : bool :=
  match a with
  | VArr l => existsb (fun e => same_value_zero e x) l
  | VStr s => str_includes s (to_string x)
  | _ => false
  end.

(** [a.some(code => x === code)] on an array. *)
Definition some_strict_eq (a x : value) : bool :=
  match a with
  | VArr l => existsb (fun code => strict_eq x code) l
  | _ => false
  end.

(** [f ? (typeof f === 'string' ? JSON.parse(f) : f) : null] *)
Definition parse_assigned (f : value) : res value :=
  if truthy f then
    match f with
    | VStr s =>
        match JSON_parse s with
        | Some v => Ok v
        | None => Throw (SyntaxError "Unexpected token in JSON")
        end
    | _ => Ok f
    end
  else Ok VNull.

(** The branch step, shared by administrators and ordinary users. *)
Definition branch_filter (data : list (gmap string value)) (user : User.t)
  : list (gmap string value) :=
  if truthy (User.branch user) && negb (strict_eq (User.branch user) (VStr "ALL"))
  then List.filter (fun item => strict_eq (get item "branch") (User.branch user)) data
  else data.

Definition filterDataByPermissions (data : list (gmap string value)) (user : User.t)
  : res (list (gmap string value)) :=
  let filteredData := branch_filter data user in
  bind (parse_assigned (User.assignedGroups user)) (fun assignedGroups =>
  bind (parse_assigned (User.assignedCostCodes user)) (fun assignedCodes =>
  if negb (strict_eq (User.role user) (VStr "ADMIN")) then
    let hasGroupRestrictions := truthy assignedGroups && length_gt0 assignedGroups in
    let hasCodeRestrictions := isArray assignedCodes && length_gt0 assignedCodes in
    if hasGroupRestrictions || hasCodeRestrictions then
      Ok (List.filter (fun item =>
            let inAssignedGroup :=
              hasGroupRestrictions && includes assignedGroups (get item "group") in
            let inAssignedCodes :=
              hasCodeRestrictions && some_strict_eq assignedCodes (get item "costCode") in
            inAssignedGroup || inAssignedCodes) filteredData)
    else if negb (strict_eq assignedCodes VNull) && isArray assignedCodes
            && length_is0 assignedCodes then
      Ok []
    else Ok filteredData
  else Ok filteredData)).

(** *** The restrictions in the words of the specification *)

(** An assigned list as the data model has it: absent, or a list. *)
Definition of_assigned (o : option (list value)) : value :=
  match o with
  | None => VNull
  | Some l => VArr l
  end.

(** The record's group is a member of the assigned groups, or its cost code
    is identical to one of the assigned codes. *)
Definition permitted (groups codes : list value) (item : gmap string value) : bool :=
  existsb (fun g => same_value_zero g (get item "group")) groups
  || existsb (fun code => strict_eq (get item "costCode") code) codes.

End Runtime.

(** The record's [branch] field is the string [b]. *)
Definition branch_is (b : string) (item : gmap string value) : bool :=
  match get item "branch" with
  | VStr s => bool_decide (s = b)
  | _ => false
  end.

End AuthMiddleware.

(** ** cacheService.js: cache keys *)

Module CacheKey.

Section Runtime.

Variable Number_toString : number -> string.

(** [filters[key]] on an object given by its own properties in insertion
    order. *)
Definition prop (filters : list (string * value)) (key : string) : value :=
  match List.find (fun kv => bool_decide (kv.1 = key)) filters with
  | Some kv => kv.2
  | None => VUndefined
  end.

(** [generateKey(prefix, filters)].  [sort()] without a comparator orders
    strings by their character codes; the sorted arrangement of a list of
    strings is unique, so any sorting algorithm gives it. *)
Definition generateKey (prefix : string) (filters : list (string * value)) : string :=
  let sortedFilters :=
    AuthMiddleware.join "&"
      (List.map (fun key => key +:+ "=" +:+
                            AuthMiddleware.to_string Number_toString (prop filters key))
                (merge_sort String.le filters.*1)) in
  prefix +:+ ":" +:+ sortedFilters.

End Runtime.

End CacheKey.

(** ** dbManager.js: branch query executor and multi-branch orchestrator

    The executor and the orchestrator with its retry loop.  The driver and
    the timer are the outside world: what they did is recorded in a trace.
    Calls to the logger are left out. *)

Module QueryResult.
(** The envelope returned for one query against one branch.  [duration]
    is the number of milliseconds that the code renders as text. *)
Record t := {
  branch : string;
  data : list (gmap string value);
  success : bool;
  error : option string;
  duration : Z;
  recordCount : option nat
}.
End QueryResult.

Module DatabaseManager.

Record config := {
  server : value;
  name : string;
  database : value
}.

(** What the database driver does during one execution. *)
Record behaviour := {
  (** [connection.connect()]: [None] when it resolves, the error message
      when it rejects. *)
  connect : option string;
  (** [request.query(query)]: the error message when it rejects, otherwise
      the [recordset] property of the result ([None] when the statement
      returned no record set). *)
  query : string + option (list (gmap string value));
  (** [connection.close()]: [None] when it resolves. *)
  close : option string;
  (** The value of [Date.now() - startTime] where the code reads it. *)
  elapsed : Z
}.

Inductive event :=
| Exec (branch : string)
| Connect (conn : nat) (server database : value) (ok : bool)
| Query (conn : nat) (sql : string) (inputs : list (nat * value)) (ok : bool)
| Close (conn : nat) (ok : bool)
| Delay (ms : Z).

Global Instance event_is_exec_dec (b : string) (e : event) : Decision (e = Exec b).
Proof.
  destruct e as [b'| | | |]; try (right; discriminate).
  destruct (decide (b' = b)) as [->|Hne]; [left; reflexivity|].
  right; intros [= ?]; contradiction.
Defined.

(** The world outside the process: what happened so far, the identifier of
    the next connection object and the connections that are open. *)
Record world := {
  trace : list event;
  next_conn : nat;
  open_conns : list nat
}.

Definition log (e : event) (w : world) : world :=
  {| trace := trace w ++ [e]; next_conn := next_conn w; open_conns := open_conns w |}.

Definition fresh_conn (w : world) : nat * world :=
  (next_conn w,
   {| trace := trace w; next_conn := S (next_conn w); open_conns := open_conns w |}).

Definition mark_open (c : nat) (w : world) : world :=
  {| trace := trace w; next_conn := next_conn w; open_conns := c :: open_conns w |}.

Definition mark_closed (c : nat) (w : world) : world :=
  {| trace := trace w; next_conn := next_conn w;
     open_conns := List.filter (fun c' => negb (c' =? c)%nat) (open_conns w) |}.

(** How many times [executeBranchQuery] was entered for a branch. *)
Definition attempts (b : string) (tr : list event) : nat :=
  length (filter (fun e => e = Exec b) tr).

(** The driver lets the whole execution go through: it connects, returns a
    record set and closes. *)
Definition succeeds (b : behaviour) : bool :=
  match connect b, query b, close b with
  | None, inr (Some _), None => true
  | _, _, _ => false
  end.

(** The executions and the back-off delays of a trace, in order. *)
Definition schedule (tr : list event) : list event :=
  List.filter (fun e => match e with Exec _ | Delay _ => true | _ => false end) tr.

(** How often a branch occurs in a list of branch codes. *)
Definition occurrences (b : string) (l : list string) : nat :=
  length (filter (fun x => x = b) l).

Section Driver.

(** [process.env]. *)
Variable env : string -> value.
(** The driver's behaviour at the [k]-th execution for a branch; the calls
    in flight share no state, each owns its connection. *)
Variable driver : string -> nat -> behaviour.

Definition branchOrder : list string := ["PMB"; "PTA"; "QTN"; "CPT"].

Definition branchConfigs : gmap string config :=
  list_to_map
    [("PMB", {| server := env "PMB_SERVER"; name := "Pietermaritzburg";
                database := env "PMB_DB" |});
     ("PTA", {| server := env "PTA_SERVER"; name := "Pretoria";
                database := env "PTA_DB" |});
     ("QTN", {| server := env "QTN_SERVER"; name := "Queenstown";
                database := env "QTN_DB" |});
     ("CPT", {| server := env "CPT_SERVER"; name := "Cape Town";
                database := env "CPT_DB" |})].

Definition failure (branch : string) (msg : string) (d : Z) : QueryResult.t :=
  {| QueryResult.branch := branch; QueryResult.data := [];
     QueryResult.success := false; QueryResult.error := Some msg;
     QueryResult.duration := d; QueryResult.recordCount := None |}.

(** [params.forEach((param, index) => request.input(`param${index}`, ...))] *)
Definition bind_params (params : list value) : list (nat * value) :=
  imap (fun index param => (index, param)) params.

(** [executeBranchQuery(branch, query, params)].  Everything after the
    first two statements runs inside [try]; the [catch] block builds the
    failure envelope and does nothing else. *)
Definition executeBranchQuery (branch query : string) (params : list value)
    (w : world) : QueryResult.t * world :=
  let b := driver branch (attempts branch (trace w)) in
  let w := log (Exec branch) w in
  match branchConfigs !! branch with
  | None =>
      (failure branch "Cannot read properties of undefined (reading 'server')" (elapsed b), w)
  | Some config =>
      let '(connection, w) := fresh_conn w in
      match connect b with
      | Some msg =>
          (failure branch msg (elapsed b),
           log (Connect connection (server config) (database config) false) w)
      | None =>
          let w := mark_open connection
                     (log (Connect connection (server config) (database config) true) w) in
          let inputs := bind_params params in
          match DatabaseManager.query b with
          | inl msg =>
              (failure branch msg (elapsed b), log (Query connection query inputs false) w)
          | inr recordset =>
              let w := log (Query connection query inputs true) w in
              match close b with
              | Some msg =>
                  (failure branch msg (elapsed b), log (Close connection false) w)
              | None =>
                  let w := mark_closed connection (log (Close connection true) w) in
                  match recordset with
                  | None =>
                      (failure branch
                         "Cannot read properties of undefined (reading 'length')"
                         (elapsed b), w)
                  | Some rows =>
                      ({| QueryResult.branch := branch;
                          QueryResult.data := rows;
                          QueryResult.success := true;
                          QueryResult.error := None;
                          QueryResult.duration := elapsed b;
                          QueryResult.recordCount := Some (length rows) |}, w)
                  end
              end
          end
      end
  end.

(** The first pass, [Promise.all(branchOrder.map(executeBranchQuery))].
    The calls run concurrently; they share no state and the driver's
    behaviour is per branch, so the result array, which [Promise.all]
    returns in the order of the branches, is that of running them one
    after the other. *)
Fixpoint execute_all (branches : list string) (query : string) (params : list value)
    (w : world) : list QueryResult.t * world :=
  match branches with
  | [] => ([], w)
  | branch :: rest =>
      let '(r, w) := executeBranchQuery branch query params w in
      let '(rs, w) := execute_all rest query params w in
      (r :: rs, w)
  end.

(** [a.findIndex(p)] and [a.indexOf(x)]: [None] stands for -1. *)
Definition findIndex (branch : string) (results : list QueryResult.t) : option nat :=
  fst <$> list_find (fun r => QueryResult.branch r = branch) results.

Definition indexOf (branch : string) (failedBranches : list string) : option nat :=
  fst <$> list_find (fun x => x = branch) failedBranches.

(** [results[failedIndex] = retryResult]: with index -1 the assignment
    creates a property and leaves the elements as they are. *)
Definition assign_at (failedIndex : option nat) (retryResult : QueryResult.t)
    (results : list QueryResult.t) : list QueryResult.t :=
  match failedIndex with
  | Some idx => <[idx := retryResult]> results
  | None => results
  end.

(** [failedBranches.splice(index, 1)]: index -1 counts from the end. *)
Definition splice1 (index : option nat) (failedBranches : list string) : list string :=
  match index with
  | Some idx => delete idx failedBranches
  | None => removelast failedBranches
  end.

(** [for (const branch of failedBranches) { ... }].  The array iterator
    keeps an index [i] and reads the live array: it stops when [i] reaches
    the current length.  The body removes an element of the array that is
    being traversed.  [fuel] bounds the number of iterations. *)
Fixpoint retry_each (fuel i : nat) (query : string) (params : list value)
    (failedBranches : list string) (results : list QueryResult.t) (w : world)
  : option (list string * list QueryResult.t * world) :=
  match failedBranches !! i with
  | None => Some (failedBranches, results, w)
  | Some branch =>
      match fuel with
      | O => None
      | S fuel' =>
          let '(retryResult, w) := executeBranchQuery branch query params w in
          if QueryResult.success retryResult then
            let failedIndex := findIndex branch results in
            let results := assign_at failedIndex retryResult results in
            let failedBranches := splice1 (indexOf branch failedBranches) failedBranches in
            retry_each fuel' (S i) query params failedBranches results w
          else
            retry_each fuel' (S i) query params failedBranches results w
      end
  end.

(** [for (let retryCount = 1; retryCount <= 2; retryCount++) { ... }] over
    the remaining values of [retryCount]. *)
Fixpoint retry_rounds (retryCounts : list nat) (query : string) (params : list value)
    (failedBranches : list string) (results : list QueryResult.t) (w : world)
  : option (list QueryResult.t * world) :=
  match retryCounts with
  | [] => Some (results, w)
  | retryCount :: rest =>
      let delay := (500 * 2 ^ (Z.of_nat retryCount - 1))%Z in
      let w := log (Delay delay) w in
      match retry_each (length failedBranches) 0 query params failedBranches results w with
      | None => None
      | Some (failedBranches, results, w) =>
          if (length failedBranches =? 0)%nat then Some (results, w)
          else retry_rounds rest query params failedBranches results w
      end
  end.

(** [queryAllBranches(query, params)]; [None] only if an iteration bound
    is exceeded. *)
Definition queryAllBranches (query : string) (params : list value) (w : world)
  : option (list QueryResult.t * world) :=
  let '(results, w) := execute_all branchOrder query params w in
  let failedBranches :=
    List.map QueryResult.branch
      (List.filter (fun r => negb (QueryResult.success r)) results) in
  if (0 <? length failedBranches)%nat then
    retry_rounds [1; 2]%nat query params failedBranches results w
  else Some (results, w).

End Driver.

End DatabaseManager.

(** ** dataService.js: record processing *)

Module DataService.

Section Runtime.

(** [parseFloat]. *)
Variable parseFloat : value -> number.

(** [a || b] *)
Definition or_else (a b : value) : value := if truthy a then a else b.

Definition of_branch (o : option string) : value :=
  match o with
  | Some branch => VStr branch
  | None => VNull
  end.

Definition branchMap : gmap string value :=
  list_to_map [("PMB", VStr "Pietermaritzburg"); ("PTA", VStr "Pretoria");
               ("QTN", VStr "Queenstown"); ("CPT", VStr "Cape Town")].

(** [branchMap[k]]: a string key reads the table, any other key of the
    universe names no property of it. *)
Definition branchMap_at (k : value) : value :=
  match k with
  | VStr s => default VUndefined (branchMap !! s)
  | _ => VUndefined
  end.

(** The body of the inner [forEach]: the object pushed for one row. *)
Definition process_record (result : QueryResult.t) (record : gmap string value)
  : res (gmap string value) :=
  let amount :=
    or_else (or_else (VNum (parseFloat (get record "lineTotal")))
                     (VNum (parseFloat (get record "orderTotal"))))
            (VNum (Fin 0%Qc)) in
  bind (CostCodeService.extractBranchFromCode (get record "costCode")) (fun owner =>
  let ownedByBranch := or_else (of_branch owner) (VStr (QueryResult.branch result)) in
  Ok (<["branch" := ownedByBranch]>
     (<["branchName" := or_else (branchMap_at ownedByBranch) ownedByBranch]>
     (<["sourceDatabase" := VStr (QueryResult.branch result)]>
     (<["amount" := amount]>
     (<["category" := or_else (get record "group") (VStr "Uncategorized")]>
     (<["status" := VStr "Completed"]> record))))))).

(** [l.forEach(x => processed.push(f(x)))] for a body that may throw. *)
Fixpoint mapM {A B} (f : A -> res B) (l : list A) : res (list B) :=
  match l with
  | [] => Ok []
  | x :: l' =>
      bind (f x) (fun y =>
      bind (mapM f l') (fun ys => Ok (y :: ys)))
  end.

(** [_processRecords(results)].  [result.data] is an array, hence truthy. *)
Definition _processRecords (results : list QueryResult.t)
  : res (list (gmap string value)) :=
  bind (mapM (fun result =>
                if QueryResult.success result
                then mapM (process_record result) (QueryResult.data result)
                else Ok []) results)
       (fun parts => Ok (concat parts)).

End Runtime.

(** [_isMalformedGroupName(groupName)] *)
Definition _isMalformedGroupName (groupName : value) : res bool :=
  if negb (truthy groupName) then Ok true
  else match groupName with
       | VStr s =>
           let branches := ["PMB"; "PTA"; "QTN"; "CPT"] in
           let normalized := toUpperCase (trim s) in
           Ok (existsb (fun branch => startsWith normalized (branch +:+ "-")
                                      || startsWith normalized (branch +:+ " -"))
                       branches)
       | _ => Throw (TypeError "groupName.trim is not a function")
       end.

(** *** Pagination *)

Record pagination := {
  currentPage : Z;
  pageSize : Z;
  totalRecords : Z;
  totalPages : Z;
  hasNextPage : bool;
  hasPreviousPage : bool
}.

Record page (A : Type) := {
  data : list A;
  page_pagination : pagination
}.
Arguments data {A} _.
Arguments page_pagination {A} _.

(** [Math.ceil(n / d)] for integers [0 <= n] and [0 < d]. *)
Definition ceil_div (n d : Z) : Z := ((n + d - 1) / d)%Z.

(** [a.slice(start, end)] for integers [0 <= start <= end]. *)
Definition slice {A} (a : list A) (startIndex endIndex : Z) : list A :=
  take (Z.to_nat (endIndex - startIndex)) (drop (Z.to_nat startIndex) a).

(** [paginateRecords(records, pageNumber, pageSize)] for an integer page
    number and a positive integer page size, which is what the routes pass
    (the results of [parseInt], the size clamped to 10..500). *)
Definition paginateRecords {A} (records : list A) (pageNumber : Z) (size : positive)
  : page A :=
  let totalRecords := Z.of_nat (length records) in
  let totalPages := ceil_div totalRecords (Z.pos size) in
  let pageNumber := if (pageNumber <? 1)%Z then 1%Z else pageNumber in
  let pageNumber :=
    if (totalPages <? pageNumber)%Z && (0 <? totalPages)%Z then totalPages
    else pageNumber in
  let startIndex := ((pageNumber - 1) * Z.pos size)%Z in
  let endIndex := (startIndex + Z.pos size)%Z in
  let pageRecords := slice records startIndex endIndex in
  {| data := pageRecords;
     page_pagination :=
       {| currentPage := pageNumber;
          pageSize := Z.pos size;
          totalRecords := totalRecords;
          totalPages := totalPages;
          hasNextPage := (pageNumber <? totalPages)%Z;
          hasPreviousPage := (1 <? pageNumber)%Z |} |}.

End DataService.

(** ** Concrete inputs used by the examples below *)

Module Fixtures.

(** A runtime for users whose assignments are stored as arrays: no text is
    ever handed to [JSON.parse], no number is ever printed. *)
Definition no_json (s : string) : option value := None.
Definition no_print (n : number) : string := "".

(** [parseFloat] on the values that the examples contain. *)
Definition parse_float (v : value) : number :=
  match v with
  | VNum n => n
  | _ => NaN
  end.

Definition row (branch costCode group : value) : gmap string value :=
  <["branch" := branch]> (<["costCode" := costCode]> {["group" := group]}).

Definition electrical_row : gmap string value :=
  row (VStr "PMB") (VStr "PMB-ELEC-002") (VStr "Electrical").
Definition maintenance_row : gmap string value :=
  row (VStr "PMB") (VStr "PMB-MNT-001") (VStr "Mechanical").
Definition plumbing_row : gmap string value :=
  row (VStr "PTA") (VStr "PTA-PLUMB-001") (VStr "Plumbing").

Definition records : list (gmap string value) :=
  [electrical_row; maintenance_row; plumbing_row].

Definition restricted_user : User.t :=
  {| User.role := VStr "User"; User.branch := VStr "ALL";
     User.assignedCostCodes := VArr [VStr "PMB-MNT-001"];
     User.assignedGroups := VArr [VStr "Electrical"] |}.

Definition denied_user : User.t :=
  {| User.role := VStr "User"; User.branch := VStr "ALL";
     User.assignedCostCodes := VArr [];
     User.assignedGroups := VNull |}.

Definition branch_admin : User.t :=
  {| User.role := VStr "ADMIN"; User.branch := VStr "PMB";
     User.assignedCostCodes := VArr [];
     User.assignedGroups := VNull |}.

(** Drivers. *)
Definition env (k : string) : value := VStr k.

Definition world0 : DatabaseManager.world :=
  {| DatabaseManager.trace := []; DatabaseManager.next_conn := 0;
     DatabaseManager.open_conns := [] |}.

Definition answers (rows : list (gmap string value)) : DatabaseManager.behaviour :=
  {| DatabaseManager.connect := None;
     DatabaseManager.query := inr (Some rows);
     DatabaseManager.close := None;
     DatabaseManager.elapsed := 12 |}.

Definition query_fails : DatabaseManager.behaviour :=
  {| DatabaseManager.connect := None;
     DatabaseManager.query := inl "Invalid object name";
     DatabaseManager.close := None;
     DatabaseManager.elapsed := 12 |}.

Definition unreachable : DatabaseManager.behaviour :=
  {| DatabaseManager.connect := Some "Failed to connect";
     DatabaseManager.query := inl "not connected";
     DatabaseManager.close := None;
     DatabaseManager.elapsed := 15000 |}.



(** PMB fails once and then answers, PTA is down for good, QTN and CPT
    answer. *)
Definition pmb_recovers (branch : string) (k : nat) : DatabaseManager.behaviour :=
  if bool_decide (branch = "PMB") then
    match k with O => unreachable | S _ => answers [] end
  else if bool_decide (branch = "PTA") then unreachable
  else answers [].

(** The query of every branch is rejected after the connection is open. *)
Definition rejects_query (branch : string) (k : nat) : DatabaseManager.behaviour :=
  query_fails.

(** Raw rows as two branch databases return them. *)
Definition raw_row (costCode group : value) : gmap string value :=
  <["costCode" := costCode]> (<["group" := group]> {["lineTotal" := VNum (Fin 1%Qc)]}).

Definition from_pta : QueryResult.t :=
  {| QueryResult.branch := "PTA";
     QueryResult.data := [raw_row (VStr "PMB-MNT-001") (VStr "Mechanical")];
     QueryResult.success := true; QueryResult.error := None;
     QueryResult.duration := 12; QueryResult.recordCount := Some 1 |}.

Definition from_pmb : QueryResult.t :=
  {| QueryResult.branch := "PMB";
     QueryResult.data := [raw_row (VStr "pta elec 002") VNull;
                          raw_row (VStr "MNT-7") (VStr "Mechanical")];
     QueryResult.success := true; QueryResult.error := None;
     QueryResult.duration := 12; QueryResult.recordCount := Some 2 |}.

Definition from_cpt_null_code : QueryResult.t :=
  {| QueryResult.branch := "CPT";
     QueryResult.data := [raw_row (VStr "CPT-ROOF-1") (VStr "Roofing");
                          raw_row VNull (VStr "Roofing")];
     QueryResult.success := true; QueryResult.error := None;
     QueryResult.duration := 12; QueryResult.recordCount := Some 2 |}.




(** A user without assignments, and one whose stored groups are not JSON. *)
Definition plain_user : User.t :=
  {| User.role := VStr "User"; User.branch := VStr "ALL";
     User.assignedCostCodes := VNull;
     User.assignedGroups := VNull |}.

Definition broken_admin : User.t :=
  {| User.role := VStr "ADMIN"; User.branch := VStr "ALL";
     User.assignedCostCodes := VNull;
     User.assignedGroups := VStr "Electrical, Plumbing" |}.

End Fixtures.

(** * Properties *)

(** ** Strings and values *)

Lemma strict_eq_str_r (v : value) (s : string) :
  strict_eq v (VStr s) = true <-> v = VStr s.
Proof.
  destruct v as [| | b | n | s' | l]; simpl; try (split; [discriminate | congruence]).
  rewrite bool_decide_eq_true. split; congruence.
Qed.

Lemma strict_eq_str_l (v : value) (s : string) :
  strict_eq (VStr s) v = true <-> v = VStr s.
Proof.
  destruct v as [| | b | n | s' | l]; simpl; try (split; [discriminate | congruence]).
  rewrite bool_decide_eq_true. split; congruence.
Qed.

Lemma same_value_zero_str_r (v : value) (s : string) :
  same_value_zero v (VStr s) = true <-> v = VStr s.
Proof.
  destruct v as [| | b | [] | s' | l]; simpl; try (split; [discriminate | congruence]).
  rewrite bool_decide_eq_true. split; congruence.
Qed.

Lemma existsb_elem_of {A} (f : A -> bool) (x : A) (l : list A) :
  (forall y, f y = true <-> y = x) -> existsb f l = true <-> x ∈ l.
Proof.
  intros Hf. rewrite existsb_exists. split.
  - intros (y & Hy & Hfy). apply Hf in Hfy. subst. by apply list_elem_of_In.
  - intros Hx. exists x. split; [by apply list_elem_of_In | by apply Hf].
Qed.

Lemma keep_alnum_not_dash (c : ascii) :
  CostCodeService.keep_alnum c = true -> c <> "-"%char.
Proof. intros H ->. discriminate H. Qed.

(** What is left after the character filter has no separator in it, so
    cutting at the first dash returns all of it. *)
Lemma split_first_filter_alnum (s : string) :
  split_first "-" (filter_chars CostCodeService.keep_alnum s)
  = filter_chars CostCodeService.keep_alnum s.
Proof.
  induction s as [|c s IH]; [reflexivity|].
  cbn [filter_chars]. destruct (CostCodeService.keep_alnum c) eqn:Hc; [|exact IH].
  cbn [split_first]. rewrite bool_decide_eq_false_2 by by apply keep_alnum_not_dash.
  by rewrite IH.
Qed.

(** ** costCodeService.js *)

(** The category of a string code is looked up under the whole normalized
    code: the split at the first dash has nothing to cut. *)
Lemma getCategoryFromCode_whole_code (s : string) :
  CostCodeService.getCategoryFromCode (VStr s)
  = Ok (default "Other"
          (CostCodeService.categoryMap !! CostCodeService.normalize_string s)).
Proof.
  unfold CostCodeService.getCategoryFromCode, CostCodeService.normalize.
  destruct (negb (truthy (VStr s))) eqn:Hs; cbn [bind].
  - apply negb_true_iff in Hs. cbn in Hs. apply negb_false_iff in Hs.
    apply bool_decide_eq_true in Hs. subst s. reflexivity.
  - unfold CostCodeService.normalize_string.
    by rewrite split_first_filter_alnum.
Qed.

(** C10.  A code whose token before the first separator is MNT, ELEC or
    PLUMB, with or without a branch prefix, is classified as "Other": the
    normalization has already removed the separators when the code is
    split, so only a code that consists of the bare token reaches its entry
    of the table. *)
Theorem getCategoryFromCode_prefixed_code_is_other :
  CostCodeService.getCategoryFromCode (VStr "MNT-001") = Ok "Other"
  /\ CostCodeService.getCategoryFromCode (VStr "PMB-ELEC-002") = Ok "Other"
  /\ CostCodeService.getCategoryFromCode (VStr "PLUMB-7") = Ok "Other"
  /\ CostCodeService.getCategoryFromCode (VStr "MNT") = Ok "General Maintenance"
  /\ CostCodeService.getCategoryFromCode (VStr "pmb - mnt") = Ok "General Maintenance".
Proof. repeat split; vm_compute; reflexivity. Qed.

(** ** cacheService.js *)

Section CacheFacts.

Context {payload : Type} (null : payload).

Implicit Types (cache : gmap string (CacheService.item payload)).

Lemma cache_get_absent now key cache :
  cache !! key = None -> CacheService.get null now key cache = (null, cache).
Proof. intros H. unfold CacheService.get. by rewrite H. Qed.

Lemma cache_get_expired now key cache it :
  cache !! key = Some it ->
  CacheService.expiresAt it <> 0%Z -> (CacheService.expiresAt it < now)%Z ->
  CacheService.get null now key cache = (null, delete key cache).
Proof.
  intros H Hnz Hlt. unfold CacheService.get. rewrite H.
  rewrite bool_decide_eq_false_2 by done. rewrite bool_decide_eq_true_2 by done.
  reflexivity.
Qed.

Lemma cache_get_live now key cache it :
  cache !! key = Some it ->
  (CacheService.expiresAt it = 0 \/ now <= CacheService.expiresAt it)%Z ->
  CacheService.get null now key cache = (CacheService.value it, cache).
Proof.
  intros H Hlive. unfold CacheService.get. rewrite H.
  destruct Hlive as [Hz|Hle].
  - by rewrite bool_decide_eq_true_2.
  - rewrite (bool_decide_eq_false_2 (_ < _)%Z) by lia. by rewrite andb_false_r.
Qed.

Lemma cache_set_lookup now key v ttl cache :
  CacheService.set now key v ttl cache !! key
  = Some {| CacheService.value := v;
            CacheService.expiresAt := (now + ttl * 1000)%Z;
            CacheService.createdAt := now |}.
Proof. unfold CacheService.set. apply lookup_insert_eq. Qed.

(** C9, as amended.  A read returns [null] when the key is absent, when
    the entry's expiry is not zero and lies before the clock (the entry is
    then deleted by the read), and otherwise returns the stored value,
    whatever it is; [set] overwrites the entry of its key with expiry
    [now + ttlSeconds * 1000] and leaves the other keys alone, and a read
    at any time up to that expiry returns the value just stored. *)
Theorem cache_get_set_spec now key cache :
  (cache !! key = None ->
     CacheService.get null now key cache = (null, cache))
  /\ (forall it, cache !! key = Some it ->
        CacheService.expiresAt it <> 0%Z -> (CacheService.expiresAt it < now)%Z ->
        CacheService.get null now key cache = (null, delete key cache))
  /\ (forall it, cache !! key = Some it ->
        (CacheService.expiresAt it = 0 \/ now <= CacheService.expiresAt it)%Z ->
        CacheService.get null now key cache = (CacheService.value it, cache))
  /\ (forall v ttl,
        CacheService.set now key v ttl cache !! key
        = Some {| CacheService.value := v;
                  CacheService.expiresAt := (now + ttl * 1000)%Z;
                  CacheService.createdAt := now |}
        /\ (forall key', key' <> key ->
              CacheService.set now key v ttl cache !! key' = cache !! key')
        /\ (forall later, (later <= now + ttl * 1000)%Z ->
              CacheService.get null later key (CacheService.set now key v ttl cache)
              = (v, CacheService.set now key v ttl cache))).
Proof.
  split; [apply cache_get_absent|].
  split; [intros it; apply cache_get_expired|].
  split; [intros it; apply cache_get_live|].
  intros v ttl. split; [apply cache_set_lookup|]. split.
  - intros key' Hne. unfold CacheService.set. by apply lookup_insert_ne.
  - intros later Hle.
    rewrite (cache_get_live later key _ _ (cache_set_lookup now key v ttl cache));
      [reflexivity | right; exact Hle].
Qed.

End CacheFacts.

(** With a one-second entry written at time 0: a hit at 1000 ms, a miss
    that removes the entry at 1001 ms. *)
Lemma cache_get_set_spec_witness :
  CacheService.get VNull 1000 "k" (CacheService.set 0 "k" (VStr "v") 1 ∅)
  = (VStr "v", CacheService.set 0 "k" (VStr "v") 1 ∅)
  /\ CacheService.get VNull 1001 "k" (CacheService.set 0 "k" (VStr "v") 1 ∅)
     = (VNull, delete "k" (CacheService.set 0 "k" (VStr "v") 1 ∅)).
Proof.
  split.
  - destruct (cache_get_set_spec VNull 0 "k" ∅) as (_ & _ & _ & Hset).
    destruct (Hset (VStr "v") 1%Z) as (_ & _ & Hread).
    apply Hread. lia.
  - destruct (cache_get_set_spec VNull 1001 "k"
                (CacheService.set 0 "k" (VStr "v") 1 ∅)) as (_ & Hexp & _).
    apply (Hexp _ (cache_set_lookup 0 "k" (VStr "v") 1 ∅)); simpl; lia.
Defined.

(** C9, as stated, fails: the read returns [null] for a key that is
    present and whose expiry has not passed, when [null] is what was
    stored. *)
Lemma cache_get_null_without_miss :
  let cache := CacheService.set 0 "k" VNull 300 ∅ in
  ~ (fst (CacheService.get VNull 1 "k" cache) = VNull
     <-> (cache !! "k" = None
          \/ exists it, cache !! "k" = Some it /\ (CacheService.expiresAt it < 1)%Z)).
Proof.
  intros cache [Hnull _].
  assert (Hlook : cache !! "k" = Some {| CacheService.value := VNull;
                                         CacheService.expiresAt := 300000;
                                         CacheService.createdAt := 0 |})
    by apply cache_set_lookup.
  destruct Hnull as [Habs | (it & Hit & Hlt)].
  - unfold CacheService.get. by rewrite Hlook.
  - rewrite Hlook in Habs. discriminate.
  - rewrite Hlook in Hit. injection Hit as <-. simpl in Hlt. lia.
Qed.

(** ** authMiddleware.js *)

Lemma branch_is_strict_eq (b : string) (item : gmap string value) :
  strict_eq (get item "branch") (VStr b) = AuthMiddleware.branch_is b item.
Proof. unfold AuthMiddleware.branch_is. by destruct (get item "branch"). Qed.

Section PermissionFilter.

Variable JSON_parse : string -> option value.
Variable Number_toString : number -> string.


Lemma role_not_admin (user : User.t) :
  User.role user <> VStr "ADMIN" ->
  negb (strict_eq (User.role user) (VStr "ADMIN")) = true.
Proof.
  intros Hrole. apply negb_true_iff, not_true_is_false.
  by rewrite strict_eq_str_r.
Qed.

(** The branch step for a user bound to one branch, and for the sentinel. *)
Lemma branch_filter_specific data user b :
  User.branch user = VStr b -> b <> "" -> b <> "ALL" ->
  AuthMiddleware.branch_filter data user = List.filter (AuthMiddleware.branch_is b) data.
Proof.
  intros Hb Hne Hall. unfold AuthMiddleware.branch_filter. rewrite Hb. cbn.
  rewrite !bool_decide_eq_false_2 by done. cbn.
  apply List.filter_ext. intros item. apply branch_is_strict_eq.
Qed.

Lemma branch_filter_all data user :
  User.branch user = VStr "ALL" -> AuthMiddleware.branch_filter data user = data.
Proof. intros Hb. unfold AuthMiddleware.branch_filter. by rewrite Hb. Qed.

(** C1.  For a user who is not an administrator and whose assigned groups
    or assigned cost codes form a non-empty list, the filter returns, in
    order, the branch-restricted records whose group is among the assigned
    groups or whose cost code is identical to an assigned cost code; on
    string fields both tests are plain equality with a list element. *)
Theorem filter_keeps_group_or_code data user (groups codes : option (list value)) :
  User.role user <> VStr "ADMIN" ->
  AuthMiddleware.parse_assigned JSON_parse (User.assignedGroups user) = Ok (AuthMiddleware.of_assigned groups) ->
  AuthMiddleware.parse_assigned JSON_parse (User.assignedCostCodes user) = Ok (AuthMiddleware.of_assigned codes) ->
  default [] groups <> [] \/ default [] codes <> [] ->
  AuthMiddleware.filterDataByPermissions JSON_parse Number_toString data user
  = Ok (List.filter (AuthMiddleware.permitted (default [] groups) (default [] codes))
          (AuthMiddleware.branch_filter data user))
  /\ forall item g c,
       get item "group" = VStr g -> get item "costCode" = VStr c ->
       (AuthMiddleware.permitted (default [] groups) (default [] codes) item = true
        <-> VStr g ∈ default [] groups \/ VStr c ∈ default [] codes).
Proof.
  intros Hrole Hg Hc Hne. split.
  - unfold AuthMiddleware.filterDataByPermissions.
    rewrite Hg, Hc. cbn [bind]. rewrite (role_not_admin _ Hrole).
    destruct groups as [[|g gs]|], codes as [[|c cs]|];
      cbn in Hne; try (destruct Hne; congruence);
      cbn -[existsb List.filter]; f_equal; apply List.filter_ext; intros item;
      unfold AuthMiddleware.permitted;
      cbn -[same_value_zero strict_eq];
      rewrite ?orb_false_r; reflexivity.
  - intros item g c Hig Hic. unfold AuthMiddleware.permitted.
    rewrite Hig, Hic, orb_true_iff.
    rewrite (existsb_elem_of _ (VStr g)) by (intros y; apply same_value_zero_str_r).
    rewrite (existsb_elem_of _ (VStr c)) by (intros y; apply strict_eq_str_l).
    reflexivity.
Qed.

(** C2.  A user who is not an administrator, whose assigned cost codes are
    an empty array and whose assigned groups are absent or empty, receives
    the empty list. *)
Theorem filter_empty_codes_denies_all data user (groups : option (list value)) :
  User.role user <> VStr "ADMIN" ->
  AuthMiddleware.parse_assigned JSON_parse (User.assignedGroups user) = Ok (AuthMiddleware.of_assigned groups) ->
  default [] groups = [] ->
  AuthMiddleware.parse_assigned JSON_parse (User.assignedCostCodes user) = Ok (VArr []) ->
  AuthMiddleware.filterDataByPermissions JSON_parse Number_toString data user = Ok [].
Proof.
  intros Hrole Hg Hempty Hc.
  unfold AuthMiddleware.filterDataByPermissions.
  rewrite Hg, Hc. cbn [bind]. rewrite (role_not_admin _ Hrole).
  destruct groups as [gs|]; cbn in Hempty; subst; reflexivity.
Qed.

(** C3.  For an administrator whose assignment fields can be read, the
    filter is the branch step alone: the records whose branch field is the
    user's branch when that is a specific branch, the input itself when it
    is the sentinel. *)
Theorem filter_admin_branch_only data user assignedGroups assignedCodes :
  User.role user = VStr "ADMIN" ->
  AuthMiddleware.parse_assigned JSON_parse (User.assignedGroups user) = Ok assignedGroups ->
  AuthMiddleware.parse_assigned JSON_parse (User.assignedCostCodes user) = Ok assignedCodes ->
  (forall b, User.branch user = VStr b -> b <> "" -> b <> "ALL" ->
     AuthMiddleware.filterDataByPermissions JSON_parse Number_toString data user = Ok (List.filter (AuthMiddleware.branch_is b) data))
  /\ (User.branch user = VStr "ALL" ->
      AuthMiddleware.filterDataByPermissions JSON_parse Number_toString data user = Ok data).
Proof.
  intros Hrole Hg Hc.
  assert (Hstep : AuthMiddleware.filterDataByPermissions JSON_parse Number_toString data user
                  = Ok (AuthMiddleware.branch_filter data user)).
  { unfold AuthMiddleware.filterDataByPermissions.
    rewrite Hg, Hc, Hrole. reflexivity. }
  split.
  - intros b Hb Hne Hall. rewrite Hstep. f_equal. by apply branch_filter_specific.
  - intros Hb. rewrite Hstep. f_equal. by apply branch_filter_all.
Qed.

End PermissionFilter.

(** The user of the specification's example sees the record that matches
    only the group and the record that matches only the cost code. *)
Lemma filter_keeps_group_or_code_witness :
  AuthMiddleware.filterDataByPermissions Fixtures.no_json Fixtures.no_print
    Fixtures.records Fixtures.restricted_user
  = Ok [Fixtures.electrical_row; Fixtures.maintenance_row].
Proof.
  refine (eq_trans
    (proj1 (filter_keeps_group_or_code Fixtures.no_json Fixtures.no_print
              Fixtures.records Fixtures.restricted_user
              (Some [VStr "Electrical"]) (Some [VStr "PMB-MNT-001"]) _ _ _ _)) _).
  - discriminate.
  - reflexivity.
  - reflexivity.
  - left. discriminate.
  - vm_compute. reflexivity.
Defined.

Lemma filter_empty_codes_denies_all_witness :
  AuthMiddleware.filterDataByPermissions Fixtures.no_json Fixtures.no_print
    Fixtures.records Fixtures.denied_user
  = Ok [].
Proof.
  apply (filter_empty_codes_denies_all Fixtures.no_json Fixtures.no_print
           Fixtures.records Fixtures.denied_user None).
  - discriminate.
  - reflexivity.
  - reflexivity.
  - reflexivity.
Defined.

Lemma filter_admin_branch_only_witness :
  AuthMiddleware.filterDataByPermissions Fixtures.no_json Fixtures.no_print
    Fixtures.records Fixtures.branch_admin
  = Ok (List.filter (AuthMiddleware.branch_is "PMB") Fixtures.records).
Proof.
  apply (proj1 (filter_admin_branch_only Fixtures.no_json Fixtures.no_print
                  Fixtures.records Fixtures.branch_admin VNull (VArr [])
                  eq_refl eq_refl eq_refl) "PMB").
  - reflexivity.
  - discriminate.
  - discriminate.
Defined.

(** ** dbManager.js *)

Section DriverFacts.

Import DatabaseManager.

Variable env : string -> value.
Variable driver : string -> nat -> behaviour.

Lemma attempts_app b l1 l2 : attempts b (l1 ++ l2) = attempts b l1 + attempts b l2.
Proof. unfold attempts. by rewrite filter_app, length_app. Qed.

Lemma attempts_snoc_exec b' b tr :
  attempts b' (tr ++ [Exec b]) = attempts b' tr + (if bool_decide (b = b') then 1 else 0).
Proof.
  rewrite attempts_app. f_equal. unfold attempts.
  rewrite filter_cons, filter_nil.
  destruct (decide (Exec b = Exec b')) as [[= ->]|Hne].
  - by rewrite bool_decide_eq_true_2.
  - rewrite bool_decide_eq_false_2; [done|]. by intros ->.
Qed.

Lemma attempts_snoc_other b tr e :
  (forall b', e <> Exec b') -> attempts b (tr ++ [e]) = attempts b tr.
Proof.
  intros He. rewrite attempts_app. unfold attempts at 2.
  rewrite filter_cons, filter_nil.
  destruct (decide (e = Exec b)) as [Heq|_]; [by apply He in Heq|simpl; lia].
Qed.

Lemma branchConfigs_known b :
  b ∈ branchOrder -> is_Some (branchConfigs env !! b).
Proof.
  unfold branchOrder. rewrite !elem_of_cons, elem_of_nil.
  intros [->|[->|[->|[->|[]]]]]; eexists; vm_compute; reflexivity.
Qed.

Lemma executeBranchQuery_branch b q ps w :
  QueryResult.branch (executeBranchQuery env driver b q ps w).1 = b.
Proof.
  unfold executeBranchQuery.
  destruct (branchConfigs env !! b); [|reflexivity].
  cbn. destruct (connect _); [reflexivity|].
  destruct (query _) as [?|[?|]]; [reflexivity| |];
    destruct (close _); reflexivity.
Qed.

Lemma executeBranchQuery_success b q ps w :
  b ∈ branchOrder ->
  QueryResult.success (executeBranchQuery env driver b q ps w).1
  = succeeds (driver b (attempts b (trace w))).
Proof.
  intros [c Hc]%branchConfigs_known.
  unfold executeBranchQuery, succeeds. rewrite Hc. cbn.
  destruct (connect _); [reflexivity|].
  destruct (query _) as [?|[?|]]; [reflexivity| |];
    destruct (close _); reflexivity.
Qed.

Lemma executeBranchQuery_attempts b' b q ps w :
  attempts b' (trace (executeBranchQuery env driver b q ps w).2)
  = attempts b' (trace w) + (if bool_decide (b = b') then 1 else 0).
Proof.
  unfold executeBranchQuery.
  destruct (branchConfigs env !! b); [|apply attempts_snoc_exec].
  cbn -[attempts]. destruct (connect _).
  { cbn -[attempts]. rewrite attempts_snoc_other by done. apply attempts_snoc_exec. }
  destruct (query _) as [?|[?|]].
  - cbn -[attempts]. rewrite !attempts_snoc_other by done. apply attempts_snoc_exec.
  - destruct (close _); cbn -[attempts]; rewrite !attempts_snoc_other by done;
      apply attempts_snoc_exec.
  - destruct (close _); cbn -[attempts]; rewrite !attempts_snoc_other by done;
      apply attempts_snoc_exec.
Qed.

(** A query that is rejected after the connection was opened returns with
    that connection still open and without an attempt to close it. *)
Lemma executeBranchQuery_query_error_leaks b q ps w msg :
  b ∈ branchOrder ->
  connect (driver b (attempts b (trace w))) = None ->
  query (driver b (attempts b (trace w))) = inl msg ->
  let '(r, w') := executeBranchQuery env driver b q ps w in
  QueryResult.success r = false
  /\ QueryResult.error r = Some msg
  /\ open_conns w' = next_conn w :: open_conns w
  /\ exists c, trace w' = trace w ++ [Exec b;
                 Connect (next_conn w) (server c) (database c) true;
                 Query (next_conn w) q (bind_params ps) false].
Proof.
  intros [c Hc]%branchConfigs_known Hconn Hquery.
  unfold executeBranchQuery. rewrite Hc. cbn -[attempts]. rewrite Hconn, Hquery.
  cbn. split_and!; try reflexivity.
  exists c. by rewrite <- !app_assoc.
Qed.

(** On the success path the connection that was opened is closed. *)
Lemma executeBranchQuery_success_closes b q ps w :
  let '(r, w') := executeBranchQuery env driver b q ps w in
  (QueryResult.success r = true ->
   (next_conn w ∉ open_conns w') /\ (Close (next_conn w) true ∈ trace w')).
Proof.
  unfold executeBranchQuery.
  destruct (branchConfigs env !! b) as [c|]; [|discriminate].
  cbn -[attempts]. destruct (connect _); [discriminate|].
  destruct (query _) as [?|[rows|]]; [discriminate| |];
    (destruct (close _); [discriminate|]); [|discriminate].
  intros _. cbn. split.
  - rewrite Nat.eqb_refl. cbn. rewrite list_elem_of_In, filter_In.
    intros [_ Hc']. by rewrite Nat.eqb_refl in Hc'.
  - rewrite !elem_of_app. right. apply list_elem_of_singleton. reflexivity.
Qed.

(** *** The first pass *)

Lemma execute_all_branches bs q ps w :
  List.map QueryResult.branch (execute_all env driver bs q ps w).1 = bs.
Proof.
  revert w. induction bs as [|b bs IH]; intros w; [reflexivity|].
  cbn [execute_all].
  pose proof (executeBranchQuery_branch b q ps w) as Hb.
  destruct (executeBranchQuery env driver b q ps w) as [r w1].
  specialize (IH w1).
  destruct (execute_all env driver bs q ps w1) as [rs w2].
  cbn in *. by rewrite Hb, IH.
Qed.

Lemma occurrences_cons b' b l :
  occurrences b' (b :: l) = (if bool_decide (b = b') then 1 else 0) + occurrences b' l.
Proof.
  unfold occurrences. rewrite filter_cons.
  destruct (decide (b = b')) as [->|Hne].
  - by rewrite bool_decide_eq_true_2.
  - by rewrite bool_decide_eq_false_2.
Qed.

Lemma execute_all_attempts b' bs q ps w :
  attempts b' (trace (execute_all env driver bs q ps w).2)
  = attempts b' (trace w) + occurrences b' bs.
Proof.
  revert w. induction bs as [|b bs IH]; intros w.
  - cbn -[attempts]. lia.
  - cbn [execute_all].
    pose proof (executeBranchQuery_attempts b' b q ps w) as Hb.
    destruct (executeBranchQuery env driver b q ps w) as [r w1].
    specialize (IH w1).
    destruct (execute_all env driver bs q ps w1) as [rs w2].
    cbn [fst snd] in *. rewrite IH, Hb, occurrences_cons. lia.
Qed.

(** *** The retry loop *)

Lemma map_insert_same {A B} (f : A -> B) (l : list A) (i : nat) (x y : A) :
  l !! i = Some y -> f x = f y -> List.map f (<[i := x]> l) = List.map f l.
Proof.
  revert i. induction l as [|a l IH]; intros [|i] Hl Hf; simplify_eq/=;
    [by rewrite Hf | by rewrite IH].
Qed.

Lemma map_branch_assign_at branch r results :
  QueryResult.branch r = branch ->
  List.map QueryResult.branch (assign_at (findIndex branch results) r results)
  = List.map QueryResult.branch results.
Proof.
  intros Hr. unfold findIndex.
  destruct (list_find _ results) as [[idx r0]|] eqn:Hfind; cbn; [|reflexivity].
  apply list_find_Some in Hfind as (Hl & Hp & _).
  apply (map_insert_same _ _ _ _ r0); congruence.
Qed.

Lemma splice1_length branch failedBranches i :
  failedBranches !! i = Some branch ->
  length (splice1 (indexOf branch failedBranches) failedBranches)
  = length failedBranches - 1.
Proof.
  intros Hi. unfold indexOf.
  destruct (list_find _ failedBranches) as [[idx x]|] eqn:Hfind; cbn.
  - apply list_find_Some in Hfind as (Hl & _ & _). apply length_delete. eauto.
  - apply list_find_None in Hfind. rewrite Forall_forall in Hfind.
    destruct (Hfind branch); [|reflexivity].
    by apply list_elem_of_lookup_2 in Hi.
Qed.

(** The traversal ends for every behaviour of the driver when the fuel is
    the length of the list, and it never changes which branch a position
    of the result array belongs to. *)
Lemma retry_each_total fuel i q ps failedBranches results w :
  length failedBranches - i <= fuel ->
  exists failed' results' w',
    retry_each env driver fuel i q ps failedBranches results w
    = Some (failed', results', w')
    /\ List.map QueryResult.branch results' = List.map QueryResult.branch results.
Proof.
  revert i failedBranches results w.
  induction fuel as [|fuel IH]; intros i failed results w Hfuel.
  - cbn. destruct (failed !! i) eqn:Hi; [|eauto 6].
    apply lookup_lt_Some in Hi. lia.
  - cbn [retry_each]. destruct (failed !! i) as [branch|] eqn:Hi; [|eauto 6].
    pose proof (executeBranchQuery_branch branch q ps w) as Hb.
    destruct (executeBranchQuery env driver branch q ps w) as [r w1].
    cbn [fst] in Hb. destruct (QueryResult.success r).
    + destruct (IH (S i) (splice1 (indexOf branch failed) failed)
                  (assign_at (findIndex branch results) r results) w1)
        as (f' & r' & w' & Heq & Hmap).
      { rewrite (splice1_length _ _ _ Hi). apply lookup_lt_Some in Hi. lia. }
      eexists _, _, _. split; [exact Heq|].
      rewrite Hmap. by apply map_branch_assign_at.
    + apply IH. lia.
Qed.

Lemma retry_rounds_total retryCounts q ps failedBranches results w :
  exists results' w',
    retry_rounds env driver retryCounts q ps failedBranches results w
    = Some (results', w')
    /\ List.map QueryResult.branch results' = List.map QueryResult.branch results.
Proof.
  revert failedBranches results w.
  induction retryCounts as [|retryCount rest IH]; intros failed results w.
  - cbn. eauto.
  - cbn [retry_rounds].
    destruct (retry_each_total (length failed) 0 q ps failed results
                (log (Delay (500 * 2 ^ (Z.of_nat retryCount - 1))) w))
      as (f' & r' & w' & Heq & Hmap); [lia|].
    rewrite Heq. destruct (length f' =? 0)%nat.
    + eauto.
    + destruct (IH f' r' w') as (r'' & w'' & Heq' & Hmap').
      eexists _, _. split; [exact Heq'|]. congruence.
Qed.

(** The orchestration returns for every behaviour of the driver, and its
    array has one entry per configured branch, in the configured order,
    whichever branches were retried. *)
Lemma queryAllBranches_ordered q ps w :
  exists results w',
    queryAllBranches env driver q ps w = Some (results, w')
    /\ List.map QueryResult.branch results = branchOrder.
Proof.
  unfold queryAllBranches.
  pose proof (execute_all_branches branchOrder q ps w) as Hbr.
  destruct (execute_all env driver branchOrder q ps w) as [results w1].
  cbn [fst] in Hbr. destruct (0 <? _)%nat.
  - destruct (retry_rounds_total [1; 2]%nat q ps
                (List.map QueryResult.branch
                   (List.filter (fun r => negb (QueryResult.success r)) results))
                results w1) as (r' & w' & Heq & Hmap).
    eexists _, _. split; [exact Heq|]. congruence.
  - eauto.
Qed.

(** The step of the traversal at a branch that recovers.  The recovered
    branch is removed at the position of the iterator, the rest of the list
    moves one position down and the iterator moves one position up: the
    branch that followed the recovered one now sits behind the iterator and
    is not visited in this traversal. *)
Lemma retry_each_recovery_skips_next fuel i q ps failedBranches results w branch :
  NoDup failedBranches ->
  failedBranches !! i = Some branch ->
  QueryResult.success (executeBranchQuery env driver branch q ps w).1 = true ->
  retry_each env driver (S fuel) i q ps failedBranches results w
  = retry_each env driver fuel (S i) q ps (delete i failedBranches)
      (assign_at (findIndex branch results)
         (executeBranchQuery env driver branch q ps w).1 results)
      (executeBranchQuery env driver branch q ps w).2
  /\ delete i failedBranches !! i = failedBranches !! S i
  /\ delete i failedBranches !! S i = failedBranches !! S (S i).
Proof.
  intros Hnd Hi Hs. split; [|split; apply list_lookup_delete_ge; lia].
  cbn [retry_each]. rewrite Hi.
  destruct (executeBranchQuery env driver branch q ps w) as [r w1].
  cbn [fst snd] in *. rewrite Hs.
  assert (Hidx : indexOf branch failedBranches = Some i).
  { unfold indexOf.
    rewrite (proj2 (list_find_Some (fun x => x = branch) failedBranches i branch));
      [reflexivity|].
    split_and!; [exact Hi|reflexivity|].
    intros j y Hj Hlt ->.
    pose proof (NoDup_lookup _ _ _ _ Hnd Hi Hj). lia. }
  rewrite Hidx. reflexivity.
Qed.

(** *** Branches that always fail or always succeed *)

Section Persistent.

Variable failing : string -> bool.
Hypothesis driver_persistent :
  forall b k, b ∈ branchOrder -> succeeds (driver b k) = negb (failing b).







End Persistent.

End DriverFacts.


(** C5.  PMB and PTA both fail in the first pass.  In the first retry
    round PMB is executed again and recovers; its removal from the list
    that the loop is traversing moves PTA into the position that the
    iterator has already passed, and the round ends without executing PTA,
    which is still marked failed.  PTA is executed in the second round
    only: two executions in all. *)
Theorem retry_round_skips_branch_after_recovery :
  exists results w',
    DatabaseManager.queryAllBranches Fixtures.env Fixtures.pmb_recovers "SELECT 1" []
      Fixtures.world0 = Some (results, w')
    /\ DatabaseManager.schedule (DatabaseManager.trace w')
       = [DatabaseManager.Exec "PMB"; DatabaseManager.Exec "PTA";
          DatabaseManager.Exec "QTN"; DatabaseManager.Exec "CPT";
          DatabaseManager.Delay 500; DatabaseManager.Exec "PMB";
          DatabaseManager.Delay 1000; DatabaseManager.Exec "PTA"]
    /\ List.map (fun r => (QueryResult.branch r, QueryResult.success r)) results
       = [("PMB", true); ("PTA", false); ("QTN", true); ("CPT", true)].
Proof.
  eexists _, _. split; [vm_compute; reflexivity|].
  split; vm_compute; reflexivity.
Qed.

(** C8.  The connection is opened, the query is rejected, and the call
    returns its failure envelope with the connection still open: the only
    call of [close] is on the success path. *)
Theorem executeBranchQuery_error_path_keeps_connection_open :
  let '(r, w') :=
    DatabaseManager.executeBranchQuery Fixtures.env Fixtures.rejects_query
      "PMB" "SELECT 1" [] Fixtures.world0 in
  QueryResult.success r = false
  /\ QueryResult.error r = Some "Invalid object name"
  /\ DatabaseManager.trace w'
     = [DatabaseManager.Exec "PMB";
        DatabaseManager.Connect 0 (VStr "PMB_SERVER") (VStr "PMB_DB") true;
        DatabaseManager.Query 0 "SELECT 1" [] false]
  /\ DatabaseManager.open_conns w' = [0].
Proof. vm_compute. repeat split. Qed.

(** ** dataService.js *)

Lemma find_prefix_known (s X : string) :
  CostCodeService.find_prefix s = Some X -> X ∈ CostCodeService.BRANCH_PREFIXES.
Proof.
  unfold CostCodeService.find_prefix. intros H%find_some.
  apply list_elem_of_In, H.
Qed.



Lemma mapM_Ok {A B} (f : A -> res B) (l : list A) (ys : list B) :
  DataService.mapM f l = Ok ys -> Forall2 (fun x y => f x = Ok y) l ys.
Proof.
  revert ys. induction l as [|x l IH]; intros ys; cbn.
  - intros [= <-]. constructor.
  - destruct (f x) as [y|e] eqn:Hx; cbn; [|discriminate].
    destruct (DataService.mapM f l) as [ys'|e]; cbn; [|discriminate].
    intros [= <-]. constructor; [exact Hx|by apply IH].
Qed.

Section DataFacts.

Variable parseFloat : value -> number.
Variable JSON_parse : string -> option value.
Variable Number_toString : number -> string.







End DataFacts.


(** C7.  A fetched row whose cost code is NULL makes record processing
    throw: the rows processed before it are lost with the rest, and the
    caller, which only logs and rethrows, has no merged output at all.
    The sibling [normalize] guards against a missing code;
    [extractBranchFromCode] does not. *)
Theorem processRecords_null_cost_code_throws :
  DataService._processRecords Fixtures.parse_float
    [Fixtures.from_pta; Fixtures.from_cpt_null_code]
  = Throw (TypeError "Cannot read properties of null (reading 'trim')")
  /\ CostCodeService.normalize VNull = Ok "".
Proof. split; vm_compute; reflexivity. Qed.

(** * Further properties of the modelled code *)

(** ** Strings *)

Lemma string_app_cons (x : ascii) (a b : string) :
  String x a +:+ b = String x (a +:+ b).
Proof. reflexivity. Qed.

Lemma string_app_assoc (a b c : string) : (a +:+ b) +:+ c = a +:+ (b +:+ c).
Proof.
  induction a as [|x a IH]; [reflexivity|]. by rewrite !string_app_cons, IH.
Qed.

Lemma string_rev_app_acc (s acc : string) :
  String.rev_app s acc = String.rev s +:+ acc.
Proof.
  unfold String.rev. revert acc. induction s as [|c s IH]; intros acc; [reflexivity|].
  cbn [String.rev_app]. rewrite (IH (String c acc)), (IH (String c "")).
  by rewrite string_app_assoc.
Qed.

Lemma string_rev_cons (c : ascii) (s : string) :
  String.rev (String c s) = String.rev s +:+ String c "".
Proof. unfold String.rev at 1. cbn [String.rev_app]. apply string_rev_app_acc. Qed.

Lemma string_rev_snoc (c : ascii) (s : string) :
  String.rev (s +:+ String c "") = String c (String.rev s).
Proof.
  induction s as [|a s IH]; [reflexivity|].
  rewrite string_app_cons, !string_rev_cons, IH. reflexivity.
Qed.

Lemma trimStart_snoc (r : string) (c : ascii) :
  trimStart (r +:+ String c "")
  = match trimStart r with
    | "" => if Ascii.is_space c then "" else String c ""
    | t => t +:+ String c ""
    end.
Proof.
  induction r as [|a r IH]; [reflexivity|].
  rewrite string_app_cons. cbn [trimStart].
  destruct (Ascii.is_space a); [exact IH|reflexivity].
Qed.

(** [trimEnd] from the front of the string. *)
Lemma trimEnd_cons (c : ascii) (s : string) :
  trimEnd (String c s)
  = match trimEnd s with
    | "" => if Ascii.is_space c then "" else String c ""
    | t => String c t
    end.
Proof.
  unfold trimEnd. rewrite string_rev_cons, trimStart_snoc.
  destruct (trimStart (String.rev s)) as [|a t] eqn:Ht.
  - cbn. by destruct (Ascii.is_space c).
  - rewrite string_rev_snoc.
    destruct (String.rev (String a t)) eqn:Hr; [|reflexivity].
    rewrite string_rev_cons in Hr. by destruct (String.rev t).
Qed.

Lemma trimEnd_cons_nonspace (c : ascii) (s : string) :
  Ascii.is_space c = false -> trimEnd (String c s) = String c (trimEnd s).
Proof. intros Hc. rewrite trimEnd_cons, Hc. by destruct (trimEnd s). Qed.

Lemma trimEnd_blank (s : string) :
  trimEnd s = "" <-> all_chars Ascii.is_space s = true.
Proof.
  induction s as [|c s IH]; [done|].
  rewrite trimEnd_cons. cbn [all_chars]. rewrite andb_true_iff, <- IH.
  destruct (trimEnd s), (Ascii.is_space c); intuition discriminate.
Qed.

Lemma keep_alnum_nonspace (c : ascii) :
  CostCodeService.keep_alnum c = true -> Ascii.is_space c = false.
Proof. destruct c as [[] [] [] [] [] [] [] []]; vm_compute; congruence. Qed.

Lemma keep_alnum_upper (c : ascii) :
  CostCodeService.keep_alnum c = true -> upper_char c = c.
Proof. destruct c as [[] [] [] [] [] [] [] []]; vm_compute; congruence. Qed.

Lemma all_chars_filter (p : ascii -> bool) (s : string) :
  all_chars p (filter_chars p s) = true.
Proof.
  induction s as [|c s IH]; [reflexivity|].
  cbn. destruct (p c) eqn:Hc; [cbn; by rewrite Hc|exact IH].
Qed.

Lemma filter_chars_id (p : ascii -> bool) (s : string) :
  all_chars p s = true -> filter_chars p s = s.
Proof.
  induction s as [|c s IH]; [reflexivity|].
  cbn. intros [Hc Hs]%andb_true_iff. rewrite Hc, IH; done.
Qed.

Lemma trim_alnum (s : string) :
  all_chars CostCodeService.keep_alnum s = true -> trim s = s.
Proof.
  intros Hs. unfold trim.
  assert (Hstart : trimStart s = s).
  { destruct s as [|c s]; [reflexivity|]. cbn in *.
    apply andb_true_iff in Hs as [Hc%keep_alnum_nonspace _]. by rewrite Hc. }
  rewrite Hstart. clear Hstart.
  induction s as [|c s IH]; [reflexivity|].
  cbn in Hs. apply andb_true_iff in Hs as [Hc Hs].
  rewrite trimEnd_cons_nonspace by by apply keep_alnum_nonspace.
  by rewrite IH.
Qed.

Lemma toUpperCase_alnum (s : string) :
  all_chars CostCodeService.keep_alnum s = true -> toUpperCase s = s.
Proof.
  induction s as [|c s IH]; [reflexivity|].
  cbn. intros [Hc Hs]%andb_true_iff. by rewrite keep_alnum_upper, IH.
Qed.

Lemma startsWith_all_chars (p : ascii -> bool) (s pre : string) :
  all_chars p s = true -> startsWith s pre = true -> all_chars p pre = true.
Proof.
  revert s. induction pre as [|a pre IH]; intros [|b s]; cbn; try done.
  intros [Hb Hs]%andb_true_iff [Hab Hpre]%andb_true_iff.
  apply bool_decide_eq_true in Hab as ->. rewrite Hb. cbn. by eapply IH.
Qed.

Lemma find_prefix_alnum (s : string) :
  all_chars CostCodeService.keep_alnum s = true ->
  CostCodeService.find_prefix s = None.
Proof.
  intros Hs.
  assert (Hno : forall pre, all_chars CostCodeService.keep_alnum pre = false ->
                            startsWith s pre = false).
  { intros pre Hpre. destruct (startsWith s pre) eqn:Hsw; [|reflexivity].
    by rewrite (startsWith_all_chars _ _ _ Hs Hsw) in Hpre. }
  unfold CostCodeService.find_prefix, CostCodeService.BRANCH_PREFIXES.
  cbn [List.find]. by rewrite !Hno by reflexivity.
Qed.

(** ** costCodeService.js: normalization *)

Lemma normalize_string_alnum (s : string) :
  all_chars CostCodeService.keep_alnum (CostCodeService.normalize_string s) = true.
Proof. apply all_chars_filter. Qed.

Lemma normalize_string_fixed (n : string) :
  all_chars CostCodeService.keep_alnum n = true ->
  CostCodeService.normalize_string n = n.
Proof.
  intros Hn. unfold CostCodeService.normalize_string.
  rewrite (trim_alnum n Hn), (toUpperCase_alnum n Hn), (find_prefix_alnum n Hn).
  by apply filter_chars_id.
Qed.

(** X1.  Normalizing a cost code gives a text of capital letters and
    digits only, and normalizing that text again gives it back. *)
Theorem normalize_idempotent (s : string) :
  exists n,
    CostCodeService.normalize (VStr s) = Ok n
    /\ all_chars CostCodeService.keep_alnum n = true
    /\ CostCodeService.normalize (VStr n) = Ok n.
Proof.
  assert (Hval : forall t, CostCodeService.normalize (VStr t)
                           = Ok (CostCodeService.normalize_string t)).
  { intros t. unfold CostCodeService.normalize. cbn.
    destruct (bool_decide (t = "")) eqn:Ht; cbn; [|reflexivity].
    apply bool_decide_eq_true in Ht. by subst t. }
  exists (CostCodeService.normalize_string s).
  split; [apply Hval|]. split; [apply normalize_string_alnum|].
  rewrite Hval. f_equal. apply normalize_string_fixed, normalize_string_alnum.
Qed.

Lemma trimEnd_cons_nonblank (c : ascii) (s : string) :
  all_chars Ascii.is_space s = false -> trimEnd (String c s) = String c (trimEnd s).
Proof.
  intros Hs. rewrite trimEnd_cons.
  destruct (trimEnd s) eqn:Ht; [|reflexivity].
  apply trimEnd_blank in Ht. congruence.
Qed.

Lemma substring_0 (s : string) : substring s 0 = s.
Proof. by destruct s. Qed.

(** The normal form of a code with a branch prefix does not depend on the
    prefix or on the separator that follows it. *)
Lemma normalize_string_prefixed (X : string) (sep : ascii) (s : string) :
  X ∈ CostCodeService.BRANCH_PREFIXES ->
  sep = "-"%char \/ sep = " "%char ->
  all_chars Ascii.is_space s = false ->
  CostCodeService.normalize_string (X +:+ String sep s)
  = filter_chars CostCodeService.keep_alnum (trim (toUpperCase (trimEnd s))).
Proof.
  intros HX Hsep Hs.
  assert (Hshape : exists a b c, X = String a (String b (String c ""))
            /\ Ascii.is_space a = false /\ Ascii.is_space b = false
            /\ Ascii.is_space c = false
            /\ upper_char a = a /\ upper_char b = b /\ upper_char c = c
            /\ forall u, CostCodeService.find_prefix
                           (String a (String b (String c (String sep u)))) = Some X).
  { unfold CostCodeService.BRANCH_PREFIXES in HX.
    rewrite !elem_of_cons, elem_of_nil in HX.
    destruct HX as [->|[->|[->|[->|[]]]]], Hsep as [->| ->];
      eexists _, _, _; split_and!; try reflexivity; intros [|? ?]; reflexivity. }
  destruct Hshape as (a & b & c & -> & Ha & Hb & Hc & Hua & Hub & Huc & Hfind).
  change (String a (String b (String c "")) +:+ String sep s)
    with (String a (String b (String c (String sep s)))).
  unfold CostCodeService.normalize_string, trim.
  cbn [trimStart]. rewrite Ha.
  rewrite !trimEnd_cons_nonspace by assumption.
  rewrite (trimEnd_cons_nonblank sep s Hs).
  cbn [toUpperCase]. rewrite Hua, Hub, Huc.
  replace (upper_char sep) with sep by (destruct Hsep as [->| ->]; reflexivity).
  rewrite Hfind. cbn [String.length Nat.add substring].
  by rewrite substring_0.
Qed.

(** X2.  The same code under two branch prefixes, each followed by a dash
    or a space, always matches: [codesMatch] cannot tell branches apart. *)
Theorem codesMatch_ignores_branch_prefix (X Y : string) (sep1 sep2 : ascii) (s : string) :
  X ∈ CostCodeService.BRANCH_PREFIXES ->
  Y ∈ CostCodeService.BRANCH_PREFIXES ->
  sep1 = "-"%char \/ sep1 = " "%char ->
  sep2 = "-"%char \/ sep2 = " "%char ->
  all_chars Ascii.is_space s = false ->
  CostCodeService.codesMatch (VStr (X +:+ String sep1 s)) (VStr (Y +:+ String sep2 s))
  = Ok true.
Proof.
  intros HX HY H1 H2 Hs.
  assert (Hval : forall Z sep, Z ∈ CostCodeService.BRANCH_PREFIXES ->
            CostCodeService.normalize (VStr (Z +:+ String sep s))
            = Ok (CostCodeService.normalize_string (Z +:+ String sep s))).
  { intros Z sep HZ. unfold CostCodeService.normalize.
    unfold CostCodeService.BRANCH_PREFIXES in HZ.
    rewrite !elem_of_cons, elem_of_nil in HZ.
    destruct HZ as [->|[->|[->|[->|[]]]]]; reflexivity. }
  unfold CostCodeService.codesMatch.
  rewrite !Hval by assumption. cbn [bind].
  rewrite !normalize_string_prefixed by assumption.
  by rewrite bool_decide_eq_true_2.
Qed.

Lemma codesMatch_ignores_branch_prefix_witness :
  CostCodeService.codesMatch (VStr "PMB-Mnt 001") (VStr "QTN Mnt 001") = Ok true.
Proof.
  apply (codesMatch_ignores_branch_prefix "PMB" "QTN" "-" " " "Mnt 001").
  - vm_compute. left.
  - vm_compute. right. right. left.
  - left. reflexivity.
  - right. reflexivity.
  - reflexivity.
Defined.

(** ** dataService.js: pagination *)

Lemma ceil_div_bounds (n d : Z) :
  (0 <= n)%Z -> (0 < d)%Z ->
  (n <= DataService.ceil_div n d * d
   /\ (DataService.ceil_div n d - 1) * d < n
   /\ 0 <= DataService.ceil_div n d)%Z.
Proof.
  intros Hn Hd. unfold DataService.ceil_div.
  pose proof (Z.div_mod (n + d - 1) d ltac:(lia)) as Hdm.
  pose proof (Z.mod_pos_bound (n + d - 1) d Hd) as Hmod.
  assert (0 <= (n + d - 1) / d)%Z by (apply Z.div_pos; lia).
  nia.
Qed.

(** Cutting a list into consecutive chunks of [p] elements and gluing the
    chunks together gives the list back. *)
Lemma chunks_concat {A} (p m : nat) (l : list A) :
  length l <= m * p ->
  concat (List.map (fun k => take p (drop (k * p) l)) (seq 0 m)) = l.
Proof.
  revert l. induction m as [|m IH]; intros l Hl.
  - destruct l; [reflexivity|cbn in Hl; lia].
  - cbn [seq List.map concat]. rewrite <- seq_shift, List.map_map.
    assert (Hrest : concat (List.map (fun k => take p (drop (S k * p) l)) (seq 0 m))
                    = drop p l).
    { rewrite <- (IH (drop p l)) by (rewrite length_drop; lia).
      f_equal. apply List.map_ext. intros k.
      by rewrite drop_drop. }
    rewrite Hrest. cbn [Nat.mul]. rewrite drop_0. apply take_drop.
Qed.

Lemma paginate_in_range {A} (records : list A) (k : nat) (size : positive) :
  1 <= k ->
  (Z.of_nat k <= DataService.ceil_div (Z.of_nat (length records)) (Z.pos size))%Z ->
  DataService.data (DataService.paginateRecords records (Z.of_nat k) size)
  = take (Pos.to_nat size) (drop ((k - 1) * Pos.to_nat size) records).
Proof.
  intros Hk HT. unfold DataService.paginateRecords. cbn [DataService.data].
  rewrite (proj2 (Z.ltb_ge (Z.of_nat k) 1)) by lia.
  rewrite (proj2 (Z.ltb_ge _ (Z.of_nat k))) by lia.
  cbn [andb]. unfold DataService.slice. f_equal; [|f_equal]; nia.
Qed.

(** X3.  The pages 1 to [totalPages], one after the other, are the record
    list: no record is lost, repeated or moved by pagination. *)
Theorem paginateRecords_pages_partition {A} (records : list A) (size : positive) :
  concat (List.map
            (fun k => DataService.data
                        (DataService.paginateRecords records (Z.of_nat k) size))
            (seq 1 (Z.to_nat (DataService.totalPages
                                (DataService.page_pagination
                                   (DataService.paginateRecords records 1 size))))))
  = records.
Proof.
  cbn [DataService.paginateRecords DataService.page_pagination DataService.totalPages].
  set (T := DataService.ceil_div (Z.of_nat (length records)) (Z.pos size)).
  destruct (ceil_div_bounds (Z.of_nat (length records)) (Z.pos size))
    as (Hup & _ & Hnn); [lia..|]. fold T in Hup, Hnn.
  etrans; [|apply (chunks_concat (Pos.to_nat size) (Z.to_nat T) records); nia].
  f_equal. rewrite <- seq_shift, List.map_map.
  apply List.map_ext_in. intros k [_ Hk]%in_seq.
  rewrite paginate_in_range by (fold T; lia).
  do 2 f_equal. lia.
Qed.

(** X4.  A page never holds more than [pageSize] records.  For a record
    list that is not empty the page number is brought into 1..totalPages
    (below 1 gives page 1, above the last page gives the last page), the
    page returned is not empty, and every page before the last is full. *)
Theorem paginateRecords_page_bounds {A} (records : list A) (k : Z) (size : positive) :
  let pg := DataService.paginateRecords records k size in
  let info := DataService.page_pagination pg in
  length (DataService.data pg) <= Pos.to_nat size
  /\ (records <> [] ->
      (1 <= DataService.currentPage info <= DataService.totalPages info)%Z
      /\ DataService.currentPage info
         = Z.max 1 (Z.min k (DataService.totalPages info))
      /\ DataService.data pg <> []
      /\ ((DataService.currentPage info < DataService.totalPages info)%Z ->
          length (DataService.data pg) = Pos.to_nat size)).
Proof.
  cbn zeta. split.
  - unfold DataService.paginateRecords, DataService.slice. cbn [DataService.data].
    rewrite length_take. lia.
  - intros Hne.
    assert (Hlen : 0 < length records) by (destruct records; [done|cbn; lia]).
    destruct (ceil_div_bounds (Z.of_nat (length records)) (Z.pos size))
      as (Hup & Hlow & Hnn); [lia..|].
    unfold DataService.paginateRecords, DataService.slice.
    cbn [DataService.data DataService.page_pagination DataService.currentPage
         DataService.totalPages].
    set (T := DataService.ceil_div (Z.of_nat (length records)) (Z.pos size)) in *.
    set (cur := if (T <? (if (k <? 1)%Z then 1%Z else k))%Z && (0 <? T)%Z
                then T else if (k <? 1)%Z then 1%Z else k).
    assert (HT : (1 <= T)%Z) by nia.
    assert (Hcur : cur = Z.max 1 (Z.min k T)).
    { subst cur. destruct (Z.ltb_spec k 1);
        [destruct (Z.ltb_spec T 1)|destruct (Z.ltb_spec T k)];
        destruct (Z.ltb_spec 0 T); cbn [andb]; lia. }
    assert (Hrange : (1 <= cur <= T)%Z) by lia.
    clearbody cur T.
    split; [exact Hrange|]. split; [exact Hcur|].
    rewrite <- length_zero_iff_nil, length_take, length_drop. split; nia.
Qed.

Lemma paginateRecords_page_bounds_witness :
  [1; 2; 3] <> @nil nat
  /\ DataService.data (DataService.paginateRecords [1; 2; 3] 7 2) <> [].
Proof.
  split; [discriminate|].
  pose proof (paginateRecords_page_bounds [1; 2; 3] 7 2) as H. cbv zeta in H.
  destruct H as [_ H]. destruct H as (_ & _ & H & _); [discriminate|exact H].
Defined.

(** X5.  For an empty record list there are no pages and the page number
    is not brought into range: it is returned as requested (at least 1),
    with no next page, and with a previous page as soon as it is above 1. *)
Theorem paginateRecords_empty {A} (k : Z) (size : positive) :
  DataService.paginateRecords (@nil A) k size
  = {| DataService.data := [];
       DataService.page_pagination :=
         {| DataService.currentPage := Z.max 1 k;
            DataService.pageSize := Z.pos size;
            DataService.totalRecords := 0;
            DataService.totalPages := 0;
            DataService.hasNextPage := false;
            DataService.hasPreviousPage := (1 <? k)%Z |} |}.
Proof.
  unfold DataService.paginateRecords, DataService.slice.
  assert (HT : DataService.ceil_div (Z.of_nat (length (@nil A))) (Z.pos size) = 0%Z).
  { unfold DataService.ceil_div. cbn [length Z.of_nat].
    apply Z.div_small. lia. }
  rewrite HT, drop_nil, take_nil. cbn [length Z.of_nat].
  destruct (Z.ltb_spec k 1) as [Hk|Hk].
  - rewrite (proj2 (Z.ltb_ge 1 k)) by lia. rewrite Z.max_l by lia. reflexivity.
  - rewrite Z.max_r by lia. rewrite (proj2 (Z.ltb_lt 0 k)) by lia.
    change (true && (0 <? 0)%Z) with false. cbv iota.
    rewrite (proj2 (Z.ltb_ge k 0)) by lia. reflexivity.
Qed.

(** ** costCodeService.js and dataService.js: branch prefixes *)

Lemma startsWith_nil (s : string) : startsWith s "" = true.
Proof. by destruct s. Qed.

Lemma startsWith_app_l (s p q : string) :
  startsWith s (p +:+ q) = true -> startsWith s p = true.
Proof.
  revert s. induction p as [|a p IH]; intros s; [intros _; apply startsWith_nil|].
  rewrite string_app_cons. destruct s as [|b s]; cbn; [done|].
  intros [-> Hs]%andb_true_iff. cbn. by apply IH.
Qed.

Lemma find_is_Some {A} (f : A -> bool) (l : list A) (x : A) :
  In x l -> f x = true -> exists y, List.find f l = Some y.
Proof.
  intros Hx Hf. destruct (List.find f l) as [y|] eqn:Hfind; [eauto|].
  by rewrite (find_none f l Hfind x Hx) in Hf.
Qed.

(** X6.  A group name that is not empty is reported as malformed only if
    it begins with a branch prefix that [extractBranchFromCode] recognizes:
    the test for groups is the stricter of the two. *)
Theorem malformed_group_carries_branch_prefix (g : string) :
  g <> "" ->
  DataService._isMalformedGroupName (VStr g) = Ok true ->
  exists X,
    X ∈ CostCodeService.BRANCH_PREFIXES
    /\ CostCodeService.extractBranchFromCode (VStr g) = Ok (Some X).
Proof.
  intros Hg. unfold DataService._isMalformedGroupName. cbn [truthy].
  rewrite bool_decide_eq_false_2 by done. cbn [negb].
  intros Hex.
  apply (f_equal (fun r => match r with Ok b => b | Throw _ => false end)) in Hex.
  cbv beta iota in Hex. apply existsb_exists in Hex as (b & Hb & Htest).
  cbn [CostCodeService.extractBranchFromCode].
  destruct (find_is_Some
              (fun prefix => startsWith (toUpperCase (trim g)) (prefix +:+ "-")
                             || startsWith (toUpperCase (trim g)) (prefix +:+ " "))
              CostCodeService.BRANCH_PREFIXES b Hb) as [X HX].
  { apply orb_true_iff in Htest as [H|H]; apply orb_true_iff; [by left|right].
    apply (startsWith_app_l _ _ "-"). by rewrite string_app_assoc. }
  exists X. split; [by eapply find_prefix_known|].
  unfold CostCodeService.find_prefix. by rewrite HX.
Qed.

Lemma malformed_group_carries_branch_prefix_witness :
  exists X,
    X ∈ CostCodeService.BRANCH_PREFIXES
    /\ CostCodeService.extractBranchFromCode (VStr "qtn - Mechanical") = Ok (Some X).
Proof.
  apply (malformed_group_carries_branch_prefix "qtn - Mechanical").
  - discriminate.
  - vm_compute. reflexivity.
Defined.

Lemma getCostCodesForBranch_strings (codes : list string) (branch : value) :
  CostCodeService.getCostCodesForBranch (VStr <$> codes) branch
  = Ok (VStr <$> List.filter
          (fun s =>
             let owner := CostCodeService.branch_value
                            (CostCodeService.find_prefix (toUpperCase (trim s))) in
             strict_eq owner branch || strict_eq owner VNull)
          codes).
Proof.
  unfold CostCodeService.getCostCodesForBranch.
  induction codes as [|s codes IH]; [reflexivity|].
  cbn [fmap list_fmap filterM CostCodeService.extractBranchFromCode bind List.filter].
  cbn [fmap] in IH. rewrite IH. cbn [bind].
  by destruct (_ || _).
Qed.

(** X7.  Among string codes, a code without a recognized branch prefix is
    listed for every branch, and a code with the prefix of a branch is
    listed for that branch and for no other of the four. *)
Theorem getCostCodesForBranch_by_prefix (codes : list string) (s X : string) :
  s ∈ codes -> X ∈ CostCodeService.BRANCH_PREFIXES ->
  exists out,
    CostCodeService.getCostCodesForBranch (VStr <$> codes) (VStr X) = Ok out
    /\ (CostCodeService.extractBranchFromCode (VStr s) = Ok None -> VStr s ∈ out)
    /\ (forall Y, CostCodeService.extractBranchFromCode (VStr s) = Ok (Some Y) ->
          VStr s ∈ out <-> Y = X).
Proof.
  intros Hs HX. eexists. split; [apply getCostCodesForBranch_strings|].
  cbn [CostCodeService.extractBranchFromCode].
  split.
  - intros [= Hnone]. apply list_elem_of_fmap. exists s. split; [reflexivity|].
    apply list_elem_of_In, filter_In. split; [by apply list_elem_of_In|].
    cbn zeta. rewrite Hnone. cbn. by rewrite ?orb_true_r.
  - intros Y [= HY]. rewrite list_elem_of_fmap. split.
    + intros (s' & [= <-] & Hin). apply list_elem_of_In, filter_In in Hin as [_ Hin].
      cbn zeta in Hin. rewrite HY in Hin. cbn in Hin. rewrite orb_false_r in Hin.
      by apply bool_decide_eq_true in Hin.
    + intros ->. exists s. split; [reflexivity|].
      apply list_elem_of_In, filter_In. split; [by apply list_elem_of_In|].
      cbn zeta. rewrite HY. cbn. by rewrite bool_decide_eq_true_2.
Qed.

Lemma getCostCodesForBranch_by_prefix_witness :
  exists out,
    CostCodeService.getCostCodesForBranch
      (VStr <$> ["PMB-MNT-001"; "ELEC-7"; "pta plumb"]) (VStr "PTA") = Ok out
    /\ VStr "ELEC-7" ∈ out.
Proof.
  destruct (getCostCodesForBranch_by_prefix
              ["PMB-MNT-001"; "ELEC-7"; "pta plumb"] "ELEC-7" "PTA")
    as (out & Hout & Hnone & _).
  - right. left.
  - right. left.
  - exists out. split; [exact Hout|]. apply Hnone. reflexivity.
Defined.

(** ** cacheService.js: invalidation and keys *)

Section CacheClearFacts.

Context {payload : Type} (null : payload).

Implicit Types (cache : gmap string (CacheService.item payload)).

Lemma lookup_foldl_delete cache (ks : list string) (key : string) :
  foldl (fun c k => delete k c) cache ks !! key
  = if decide (key ∈ ks) then None else cache !! key.
Proof.
  revert cache. induction ks as [|k ks IH]; intros cache; [reflexivity|].
  cbn [foldl]. rewrite IH.
  destruct (decide (key ∈ ks)) as [Hin|Hnin].
  - rewrite decide_True by by right. reflexivity.
  - destruct (decide (key = k)) as [->|Hne].
    + rewrite decide_True by by left. apply lookup_delete_eq.
    + rewrite decide_False by (rewrite elem_of_cons; tauto).
      by apply lookup_delete_ne.
Qed.

Lemma size_foldl_delete cache (ks : list string) :
  NoDup ks -> (forall k, k ∈ ks -> is_Some (cache !! k)) ->
  length ks + size (foldl (fun c k => delete k c) cache ks) = size cache.
Proof.
  revert cache. induction ks as [|k ks IH]; intros cache Hnd Hdom; [reflexivity|].
  apply NoDup_cons in Hnd as [Hk Hnd]. cbn [foldl length].
  assert (Hsome : is_Some (cache !! k)) by (apply Hdom; by left).
  assert (Hrest : length ks + size (foldl (fun c k => delete k c) (delete k cache) ks)
                  = size (delete k cache)).
  { apply IH; [exact Hnd|]. intros k' Hk'.
    rewrite lookup_delete_ne by (intros ->; contradiction).
    apply Hdom. by right. }
  rewrite (map_size_delete_Some k cache Hsome) in Hrest.
  assert (size cache <> 0) by (apply map_size_ne_0_lookup_2 with k; exact Hsome).
  lia.
Qed.

(** What [clearPattern] leaves behind, and its count. *)
Lemma clearPattern_lookup_size (pattern : string) cache :
  (forall key, (CacheService.clearPattern pattern cache).2 !! key
               = if startsWith key pattern then None else cache !! key)
  /\ (CacheService.clearPattern pattern cache).1
     + size (CacheService.clearPattern pattern cache).2 = size cache.
Proof.
  unfold CacheService.clearPattern. cbn [fst snd].
  set (ks := List.filter (fun key => startsWith key pattern) (map_to_list cache).*1).
  assert (Hks : forall key, key ∈ ks
            <-> startsWith key pattern = true /\ is_Some (cache !! key)).
  { intros key. subst ks. rewrite list_elem_of_In, filter_In, <- list_elem_of_In.
    rewrite list_elem_of_fmap. split.
    - intros [([k v] & -> & Hkv%elem_of_map_to_list) Hp]. eauto.
    - intros [Hp [v Hv]]. split; [|exact Hp].
      exists (key, v). split; [reflexivity|by apply elem_of_map_to_list]. }
  split.
  - intros key. rewrite lookup_foldl_delete.
    destruct (decide (key ∈ ks)) as [Hin|Hnin].
    + apply Hks in Hin as [-> _]. reflexivity.
    + destruct (startsWith key pattern) eqn:Hp; [|reflexivity].
      destruct (cache !! key) eqn:Hkey; [|reflexivity].
      destruct Hnin. apply Hks. eauto.
  - apply size_foldl_delete.
    + subst ks. apply NoDup_ListNoDup, List.NoDup_filter, NoDup_ListNoDup.
      apply NoDup_fst_map_to_list.
    + intros k Hk. by apply Hks in Hk as [_ ?].
Qed.

(** X8.  [clearPattern] removes exactly the entries whose key starts with
    the pattern and leaves every other entry as it was; the number it
    returns is the number of entries removed.  A read of a removed key
    afterwards is a miss. *)
Theorem clearPattern_removes_prefixed (pattern : string) cache :
  let '(n, cache') := CacheService.clearPattern pattern cache in
  (forall key, cache' !! key
               = if startsWith key pattern then None else cache !! key)
  /\ n + size cache' = size cache
  /\ (forall now key, startsWith key pattern = true ->
        CacheService.get null now key cache' = (null, cache')).
Proof.
  destruct (clearPattern_lookup_size pattern cache) as [Hlook Hsize].
  destruct (CacheService.clearPattern pattern cache) as [n cache'].
  cbn [fst snd] in *. split; [exact Hlook|]. split; [exact Hsize|].
  intros now key Hp. unfold CacheService.get. by rewrite Hlook, Hp.
Qed.

(** X9.  An empty pattern matches every key: [clearPattern("")] empties
    the cache and counts all entries, as [clearAll] does. *)
Theorem clearPattern_empty_is_clearAll cache :
  CacheService.clearPattern "" cache = CacheService.clearAll cache.
Proof.
  destruct (clearPattern_lookup_size "" cache) as [Hlook Hsize].
  destruct (CacheService.clearPattern "" cache) as [n cache'].
  cbn [fst snd] in *.
  assert (Hempty : cache' = ∅).
  { apply map_eq. intros key. rewrite Hlook, startsWith_nil. by rewrite lookup_empty. }
  subst cache'. rewrite map_size_empty in Hsize.
  unfold CacheService.clearAll. f_equal. lia.
Qed.

End CacheClearFacts.

Section CacheKeyFacts.

Variable Number_toString : number -> string.

Lemma prop_lookup (filters : list (string * value)) (k : string) (v : value) :
  NoDup filters.*1 -> (k, v) ∈ filters -> CacheKey.prop filters k = v.
Proof.
  unfold CacheKey.prop.
  induction filters as [|[k' v'] filters IH]; intros Hnd Hin.
  - by apply elem_of_nil in Hin.
  - cbn in Hnd. apply NoDup_cons in Hnd as [Hk' Hnd]. cbn [List.find fst].
    apply elem_of_cons in Hin as [[= -> ->]|Hin].
    + by rewrite bool_decide_eq_true_2.
    + rewrite bool_decide_eq_false_2; [by apply IH|].
      intros ->. apply Hk'. apply list_elem_of_fmap. by exists (k, v).
Qed.

(** X10.  The cache key does not depend on the order in which the filter
    properties were written: two filter objects with the same properties
    give the same key. *)
Theorem generateKey_order_independent (prefix : string)
    (filters1 filters2 : list (string * value)) :
  NoDup filters1.*1 ->
  filters1 ≡ₚ filters2 ->
  CacheKey.generateKey Number_toString prefix filters1
  = CacheKey.generateKey Number_toString prefix filters2.
Proof.
  intros Hnd Hperm. unfold CacheKey.generateKey.
  assert (Hnd2 : NoDup filters2.*1) by by rewrite <- Hperm.
  assert (Hkeys : merge_sort String.le filters1.*1 = merge_sort String.le filters2.*1).
  { apply (Sorted_unique String.le); [apply Sorted_merge_sort; apply _..|].
    by rewrite !merge_sort_Permutation, Hperm. }
  rewrite <- Hkeys. f_equal. f_equal. f_equal.
  apply List.map_ext_in. intros key Hkey.
  apply list_elem_of_In in Hkey. rewrite merge_sort_Permutation in Hkey.
  apply list_elem_of_fmap in Hkey as ([k v] & -> & Hkv). cbn [fst].
  rewrite (prop_lookup filters1 k v Hnd Hkv).
  rewrite (prop_lookup filters2 k v Hnd2) by by rewrite <- Hperm.
  reflexivity.
Qed.

End CacheKeyFacts.

Lemma generateKey_order_independent_witness :
  CacheKey.generateKey Fixtures.no_print "records:all"
    [("startDate", VStr "2025-01-01"); ("endDate", VStr "2025-06-30")]
  = CacheKey.generateKey Fixtures.no_print "records:all"
      [("endDate", VStr "2025-06-30"); ("startDate", VStr "2025-01-01")].
Proof.
  apply generateKey_order_independent.
  - cbn. apply NoDup_cons. split; [|apply NoDup_singleton].
    rewrite list_elem_of_singleton. discriminate.
  - apply Permutation_swap.
Defined.

(** ** authMiddleware.js: further behaviour of the permission filter *)

Lemma filter_all_true {A} (f : A -> bool) (l : list A) :
  (forall x, In x l -> f x = true) -> List.filter f l = l.
Proof.
  induction l as [|x l IH]; intros Hall; [reflexivity|].
  cbn. rewrite (Hall x) by by left. f_equal. apply IH. intros y Hy. apply Hall. by right.
Qed.

Lemma filter_filter_same {A} (f : A -> bool) (l : list A) :
  List.filter f (List.filter f l) = List.filter f l.
Proof. apply filter_all_true. intros x Hx. by apply filter_In in Hx as [_ ?]. Qed.

Lemma List_filter_sublist {A} (f : A -> bool) (l : list A) :
  List.filter f l `sublist_of` l.
Proof.
  induction l as [|x l IH]; [constructor|].
  cbn. destruct (f x); by constructor.
Qed.

Lemma branch_filter_idempotent data user :
  AuthMiddleware.branch_filter (AuthMiddleware.branch_filter data user) user
  = AuthMiddleware.branch_filter data user.
Proof.
  unfold AuthMiddleware.branch_filter. destruct (_ && _); [|reflexivity].
  apply filter_filter_same.
Qed.

Lemma branch_filter_of_filter (f : gmap string value -> bool) data user :
  AuthMiddleware.branch_filter (List.filter f (AuthMiddleware.branch_filter data user)) user
  = List.filter f (AuthMiddleware.branch_filter data user).
Proof.
  unfold AuthMiddleware.branch_filter. destruct (_ && _); [|reflexivity].
  apply filter_all_true. intros x Hx.
  by apply filter_In in Hx as [[_ ?]%filter_In _].
Qed.

Section PermissionFilterMore.

Variable JSON_parse : string -> option value.
Variable Number_toString : number -> string.

(** X11.  When the filter returns, what it returns is the input with some
    records left out, in the input's order, and filtering that result
    again for the same user changes nothing. *)
Theorem filter_selects_and_is_idempotent data user shown :
  AuthMiddleware.filterDataByPermissions JSON_parse Number_toString data user = Ok shown ->
  shown `sublist_of` data
  /\ AuthMiddleware.filterDataByPermissions JSON_parse Number_toString shown user
     = Ok shown.
Proof.
  unfold AuthMiddleware.filterDataByPermissions.
  destruct (AuthMiddleware.parse_assigned JSON_parse (User.assignedGroups user))
    as [groups|]; cbn [bind]; [|discriminate].
  destruct (AuthMiddleware.parse_assigned JSON_parse (User.assignedCostCodes user))
    as [codes|]; cbn [bind]; [|discriminate].
  assert (Hbranch : AuthMiddleware.branch_filter data user `sublist_of` data).
  { unfold AuthMiddleware.branch_filter. destruct (_ && _); [|reflexivity].
    apply List_filter_sublist. }
  destruct (negb _).
  - destruct (_ || _).
    + intros [= <-]. split.
      * etrans; [apply List_filter_sublist|exact Hbranch].
      * rewrite branch_filter_of_filter. f_equal. apply filter_filter_same.
    + destruct (_ && _); intros [= <-]; split.
      * apply sublist_nil_l.
      * reflexivity.
      * exact Hbranch.
      * by rewrite branch_filter_idempotent.
  - intros [= <-]. split; [exact Hbranch|]. by rewrite branch_filter_idempotent.
Qed.

(** X12.  A user whose two assignment fields are absent is subject to the
    branch step only, whatever the role; without a branch, or with the
    branch 'ALL', such a user receives the input unchanged. *)
Theorem filter_without_assignments data user :
  truthy (User.assignedGroups user) = false ->
  truthy (User.assignedCostCodes user) = false ->
  AuthMiddleware.filterDataByPermissions JSON_parse Number_toString data user
  = Ok (AuthMiddleware.branch_filter data user)
  /\ (truthy (User.branch user) = false \/ User.branch user = VStr "ALL" ->
      AuthMiddleware.filterDataByPermissions JSON_parse Number_toString data user
      = Ok data).
Proof.
  intros Hg Hc.
  assert (Hstep : AuthMiddleware.filterDataByPermissions JSON_parse Number_toString
                    data user = Ok (AuthMiddleware.branch_filter data user)).
  { unfold AuthMiddleware.filterDataByPermissions, AuthMiddleware.parse_assigned.
    rewrite Hg, Hc. cbn [bind]. by destruct (negb _). }
  split; [exact Hstep|].
  intros Hb. rewrite Hstep. f_equal. unfold AuthMiddleware.branch_filter.
  destruct Hb as [-> | ->]; reflexivity.
Qed.

(** X13.  An assignment field that holds text which [JSON.parse] rejects
    makes the filter throw, for administrators as for everyone else and
    whatever the records are: the fields are parsed before the role is
    looked at. *)
Theorem filter_throws_on_unreadable_assignment data user text :
  text <> "" -> JSON_parse text = None ->
  User.assignedGroups user = VStr text
  \/ (truthy (User.assignedGroups user) = false
      /\ User.assignedCostCodes user = VStr text) ->
  exists e,
    AuthMiddleware.filterDataByPermissions JSON_parse Number_toString data user
    = Throw (SyntaxError e).
Proof.
  intros Hne Hparse Hfield.
  unfold AuthMiddleware.filterDataByPermissions, AuthMiddleware.parse_assigned.
  destruct Hfield as [-> | [Hg ->]].
  - cbn [truthy]. rewrite bool_decide_eq_false_2 by done. cbn [negb].
    rewrite Hparse. eauto.
  - rewrite Hg. cbn [bind truthy]. rewrite bool_decide_eq_false_2 by done.
    cbn [negb]. rewrite Hparse. eauto.
Qed.

End PermissionFilterMore.

Lemma filter_without_assignments_witness :
  AuthMiddleware.filterDataByPermissions Fixtures.no_json Fixtures.no_print
    Fixtures.records Fixtures.plain_user
  = Ok Fixtures.records.
Proof.
  destruct (filter_without_assignments Fixtures.no_json Fixtures.no_print
              Fixtures.records Fixtures.plain_user eq_refl eq_refl) as [_ Hall].
  apply Hall. right. reflexivity.
Defined.

Lemma filter_throws_on_unreadable_assignment_witness :
  exists e,
    AuthMiddleware.filterDataByPermissions Fixtures.no_json Fixtures.no_print
      Fixtures.records Fixtures.broken_admin
    = Throw (SyntaxError e).
Proof.
  apply (filter_throws_on_unreadable_assignment Fixtures.no_json Fixtures.no_print
           Fixtures.records Fixtures.broken_admin "Electrical, Plumbing").
  - discriminate.
  - reflexivity.
  - left. reflexivity.
Defined.

Lemma filter_selects_and_is_idempotent_witness :
  [Fixtures.electrical_row; Fixtures.maintenance_row] `sublist_of` Fixtures.records
  /\ AuthMiddleware.filterDataByPermissions Fixtures.no_json Fixtures.no_print
       [Fixtures.electrical_row; Fixtures.maintenance_row] Fixtures.restricted_user
     = Ok [Fixtures.electrical_row; Fixtures.maintenance_row].
Proof.
  apply (filter_selects_and_is_idempotent Fixtures.no_json Fixtures.no_print
           Fixtures.records Fixtures.restricted_user).
  vm_compute. reflexivity.
Defined.

(** ** dbManager.js: further behaviour of the executor and the orchestrator *)

Lemma occurrences_nil (b : string) : DatabaseManager.occurrences b [] = 0.
Proof. reflexivity. Qed.

Lemma occurrences_cons_eq (b' b : string) (l : list string) :
  DatabaseManager.occurrences b' (b :: l)
  = (if bool_decide (b = b') then 1 else 0) + DatabaseManager.occurrences b' l.
Proof.
  unfold DatabaseManager.occurrences. rewrite filter_cons.
  destruct (decide (b = b')) as [->|Hne].
  - by rewrite bool_decide_eq_true_2.
  - by rewrite bool_decide_eq_false_2.
Qed.

Lemma occurrences_sublist (b : string) (l1 l2 : list string) :
  l1 `sublist_of` l2 ->
  DatabaseManager.occurrences b l1 <= DatabaseManager.occurrences b l2.
Proof.
  induction 1 as [|x l1 l2 _ IH|x l1 l2 _ IH]; [done|..];
    rewrite ?occurrences_cons_eq; lia.
Qed.

Lemma occurrences_not_in (b : string) (l : list string) :
  b ∉ l -> DatabaseManager.occurrences b l = 0.
Proof.
  induction l as [|x l IH]; [done|].
  rewrite not_elem_of_cons, occurrences_cons_eq. intros [Hne Hl].
  rewrite bool_decide_eq_false_2 by done. by rewrite IH.
Qed.

Lemma occurrences_NoDup (b : string) (l : list string) :
  NoDup l -> b ∈ l -> DatabaseManager.occurrences b l = 1.
Proof.
  induction 1 as [|x l Hx Hnd IH]; [by intros ?%elem_of_nil|].
  rewrite occurrences_cons_eq, elem_of_cons. intros [->|Hin].
  - rewrite bool_decide_eq_true_2 by done. by rewrite occurrences_not_in.
  - rewrite bool_decide_eq_false_2 by (intros ->; contradiction).
    by rewrite IH.
Qed.

Lemma drop_delete_le {A} (l : list A) (i j : nat) :
  i <= j -> drop j (delete i l) = drop (S j) l.
Proof.
  revert i j. induction l as [|x l IH]; intros i j Hij.
  - by destruct i, j.
  - destruct i as [|i]; [reflexivity|].
    destruct j as [|j]; [lia|]. cbn. apply IH. lia.
Qed.

Lemma indexOf_NoDup (l : list string) (i : nat) (b : string) :
  NoDup l -> l !! i = Some b -> DatabaseManager.indexOf b l = Some i.
Proof.
  intros Hnd Hi. unfold DatabaseManager.indexOf.
  rewrite (proj2 (list_find_Some (fun x => x = b) l i b)); [reflexivity|].
  split_and!; [exact Hi|reflexivity|].
  intros j y Hj Hlt ->. pose proof (NoDup_lookup _ _ _ _ Hnd Hi Hj). lia.
Qed.

Section DriverFactsMore.

Import DatabaseManager.

Variable env : string -> value.
Variable driver : string -> nat -> behaviour.

(** X14.  The envelope of an execution carries the branch it was asked
    for; a success has no error and counts the rows it carries; a failure
    carries an error message and no rows.  The call opens at most one
    connection and only adds to the trace. *)
Theorem executeBranchQuery_envelope b q ps w :
  let '(r, w') := executeBranchQuery env driver b q ps w in
  QueryResult.branch r = b
  /\ (QueryResult.success r = true ->
      QueryResult.error r = None
      /\ QueryResult.recordCount r = Some (length (QueryResult.data r)))
  /\ (QueryResult.success r = false ->
      QueryResult.data r = [] /\ is_Some (QueryResult.error r)
      /\ QueryResult.recordCount r = None)
  /\ next_conn w <= next_conn w' <= S (next_conn w)
  /\ exists evs, trace w' = trace w ++ Exec b :: evs.
Proof.
  unfold executeBranchQuery.
  destruct (branchConfigs env !! b) as [c|].
  2:{ cbn. split_and!; try done; try lia; eauto. }
  cbn -[attempts]. destruct (connect _).
  { cbn. split_and!; try done; try lia; eauto.
    eexists. by rewrite <- app_assoc. }
  destruct (query _) as [?|[rows|]]; [|destruct (close _)..];
    cbn; (split_and!; try done; try lia; eauto);
    eexists; rewrite <- ?app_assoc; reflexivity.
Qed.

Lemma execute_all_first_outcomes bs q ps w :
  NoDup bs -> (forall b, b ∈ bs -> b ∈ branchOrder) ->
  Forall (fun r => QueryResult.success r
                   = succeeds (driver (QueryResult.branch r)
                                      (attempts (QueryResult.branch r) (trace w))))
         (execute_all env driver bs q ps w).1.
Proof.
  revert w. induction bs as [|b bs IH]; intros w Hnd Hin; [constructor|].
  apply NoDup_cons in Hnd as [Hb Hnd]. cbn [execute_all].
  pose proof (executeBranchQuery_branch env driver b q ps w) as Hbr.
  pose proof (executeBranchQuery_success env driver b q ps w) as Hs.
  pose proof (fun b' => executeBranchQuery_attempts env driver b' b q ps w) as Ha.
  destruct (executeBranchQuery env driver b q ps w) as [r w1].
  specialize (IH w1 Hnd).
  pose proof (execute_all_branches env driver bs q ps w1) as Hbs.
  destruct (execute_all env driver bs q ps w1) as [rs w2].
  cbn [fst snd] in *. constructor.
  - rewrite Hbr. apply Hs, Hin. by left.
  - assert (Hall := IH (fun b' Hb' => Hin b' (proj2 (elem_of_cons bs b' b) (or_intror Hb')))).
    rewrite Forall_forall in Hall |- *. intros r' Hr'.
    rewrite (Hall r' Hr'), Ha.
    rewrite bool_decide_eq_false_2; [by rewrite Nat.add_0_r|].
    intros Heq. apply Hb. rewrite <- Hbs, Heq.
    apply list_elem_of_In, in_map, list_elem_of_In, Hr'.
Qed.

Lemma retry_each_bounds fuel i q ps failedBranches results w :
  NoDup failedBranches ->
  length failedBranches - i <= fuel ->
  exists failed' results' w',
    retry_each env driver fuel i q ps failedBranches results w
    = Some (failed', results', w')
    /\ failed' `sublist_of` failedBranches
    /\ forall b', attempts b' (trace w) <= attempts b' (trace w')
                  <= attempts b' (trace w) + occurrences b' (drop i failedBranches).
Proof.
  revert i failedBranches results w.
  induction fuel as [|fuel IH]; intros i failed results w Hnd Hfuel.
  - cbn. destruct (failed !! i) eqn:Hi.
    { apply lookup_lt_Some in Hi. lia. }
    eexists _, _, _. split_and!; [reflexivity|reflexivity|]. intros b'. lia.
  - cbn [retry_each]. destruct (failed !! i) as [branch|] eqn:Hi.
    2:{ eexists _, _, _. split_and!; [reflexivity|reflexivity|]. intros b'. lia. }
    pose proof (fun b' => executeBranchQuery_attempts env driver b' branch q ps w) as Ha.
    destruct (executeBranchQuery env driver branch q ps w) as [r w1].
    cbn [snd] in Ha. rewrite (drop_S _ _ _ Hi).
    destruct (QueryResult.success r).
    + rewrite (indexOf_NoDup failed i branch Hnd Hi). cbn [splice1].
      destruct (IH (S i) (delete i failed)
                  (assign_at (findIndex branch results) r results) w1)
        as (f' & r' & w' & Heq & Hsub & Hatt).
      { eapply sublist_NoDup; [exact Hnd|apply sublist_delete]. }
      { rewrite length_delete by eauto. apply lookup_lt_Some in Hi. lia. }
      eexists _, _, _. split; [exact Heq|]. split.
      { etrans; [exact Hsub|apply sublist_delete]. }
      intros b'. specialize (Hatt b'). rewrite Ha in Hatt.
      rewrite (drop_delete_le failed i (S i)) in Hatt by lia.
      pose proof (occurrences_sublist b' _ _ (sublist_drop (drop (S i) failed) 1)) as Hocc.
      rewrite drop_drop in Hocc. replace (S i + 1) with (S (S i)) in Hocc by lia.
      rewrite occurrences_cons_eq. lia.
    + destruct (IH (S i) failed results w1 Hnd) as (f' & r' & w' & Heq & Hsub & Hatt);
        [lia|].
      eexists _, _, _. split; [exact Heq|]. split; [exact Hsub|].
      intros b'. specialize (Hatt b'). rewrite Ha in Hatt.
      rewrite occurrences_cons_eq. lia.
Qed.

Lemma retry_rounds_bounds retryCounts q ps failedBranches results w :
  NoDup failedBranches ->
  exists results' w',
    retry_rounds env driver retryCounts q ps failedBranches results w
    = Some (results', w')
    /\ forall b', attempts b' (trace w) <= attempts b' (trace w')
                  <= attempts b' (trace w)
                     + length retryCounts * occurrences b' failedBranches.
Proof.
  revert failedBranches results w.
  induction retryCounts as [|retryCount rest IH]; intros failed results w Hnd.
  - cbn. eexists _, _. split; [reflexivity|]. intros b'. lia.
  - cbn [retry_rounds].
    destruct (retry_each_bounds (length failed) 0 q ps failed results
                (log (Delay (500 * 2 ^ (Z.of_nat retryCount - 1))) w) Hnd)
      as (f' & r' & w' & Heq & Hsub & Hatt); [lia|].
    rewrite Heq.
    assert (Hatt' : forall b', attempts b' (trace w) <= attempts b' (trace w')
                      <= attempts b' (trace w) + occurrences b' failed).
    { intros b'. specialize (Hatt b'). cbn [trace log] in Hatt.
      rewrite attempts_snoc_other, drop_0 in Hatt by done. exact Hatt. }
    destruct (length f' =? 0)%nat.
    + eexists _, _. split; [reflexivity|]. intros b'. specialize (Hatt' b').
      cbn [length]. lia.
    + destruct (IH f' r' w') as (r'' & w'' & Heq' & Hatt'').
      { eapply sublist_NoDup; [exact Hnd|exact Hsub]. }
      eexists _, _. split; [exact Heq'|]. intros b'.
      specialize (Hatt' b'). specialize (Hatt'' b').
      pose proof (occurrences_sublist b' _ _ Hsub). cbn [length]. nia.
Qed.

(** X15.  Whatever the databases do, the orchestration returns and has
    executed the query at least once and at most three times on every
    configured branch; a branch whose first execution succeeds is executed
    exactly once; no other branch is ever executed. *)
Theorem queryAllBranches_attempt_bounds q ps w :
  exists results w',
    queryAllBranches env driver q ps w = Some (results, w')
    /\ (forall b, b ∈ branchOrder ->
          attempts b (trace w) + 1 <= attempts b (trace w')
            <= attempts b (trace w) + 3
          /\ (succeeds (driver b (attempts b (trace w))) = true ->
              attempts b (trace w') = attempts b (trace w) + 1))
    /\ (forall b, b ∉ branchOrder -> attempts b (trace w') = attempts b (trace w)).
Proof.
  assert (Hnd : NoDup branchOrder).
  { unfold branchOrder. repeat (apply NoDup_cons; split;
      [rewrite ?elem_of_cons, elem_of_nil; intros H; intuition discriminate|]).
    apply NoDup_nil_2. }
  unfold queryAllBranches.
  pose proof (execute_all_branches env driver branchOrder q ps w) as Hbr.
  pose proof (fun b' => execute_all_attempts env driver b' branchOrder q ps w) as Hatt.
  pose proof (execute_all_first_outcomes branchOrder q ps w Hnd (fun b H => H)) as Hout.
  destruct (execute_all env driver branchOrder q ps w) as [results w1].
  cbn [fst snd] in Hbr, Hatt, Hout.
  set (failed := List.map QueryResult.branch
                   (List.filter (fun r => negb (QueryResult.success r)) results)).
  assert (Hsub : failed `sublist_of` branchOrder).
  { subst failed. rewrite <- Hbr. clear.
    induction results as [|r rs IH]; [constructor|].
    cbn. destruct (negb _); cbn; by constructor. }
  assert (Hfailed : forall b, b ∈ failed ->
            succeeds (driver b (attempts b (trace w))) = false).
  { intros b Hb. subst failed.
    apply list_elem_of_In, in_map_iff in Hb as (r & <- & Hr).
    apply filter_In in Hr as [Hr Hs].
    rewrite Forall_forall in Hout. rewrite <- (Hout r) by by apply list_elem_of_In.
    by apply negb_true_iff. }
  assert (Hbounds : exists results' w',
            (if (0 <? length failed)%nat
             then retry_rounds env driver [1; 2]%nat q ps failed results w1
             else Some (results, w1)) = Some (results', w')
            /\ forall b', attempts b' (trace w1) <= attempts b' (trace w')
                          <= attempts b' (trace w1) + 2 * occurrences b' failed).
  { destruct (0 <? length failed)%nat.
    - apply retry_rounds_bounds. eapply sublist_NoDup; [exact Hnd|exact Hsub].
    - eexists _, _. split; [reflexivity|]. intros b'. lia. }
  destruct Hbounds as (results' & w' & Heq & Hb).
  exists results', w'. split; [exact Heq|]. split.
  - intros b Hin. specialize (Hb b). rewrite Hatt in Hb.
    rewrite (occurrences_NoDup b branchOrder Hnd Hin) in Hb.
    pose proof (occurrences_sublist b _ _ Hsub) as Hle.
    rewrite (occurrences_NoDup b branchOrder Hnd Hin) in Hle.
    split; [lia|]. intros Hok.
    rewrite occurrences_not_in in Hb; [lia|].
    intros Hf%Hfailed. congruence.
  - intros b Hnin. specialize (Hb b). rewrite Hatt in Hb.
    rewrite (occurrences_not_in b branchOrder Hnin) in Hb.
    rewrite occurrences_not_in in Hb; [lia|].
    intros Hf. apply Hnin. eapply elem_of_sublist; [exact Hf|exact Hsub].
Qed.

End DriverFactsMore.

(** ** dataService.js: when record processing returns *)

Lemma mapM_length {A B} (f : A -> res B) (l : list A) (ys : list B) :
  DataService.mapM f l = Ok ys -> length ys = length l.
Proof. intros H%mapM_Ok. symmetry. by eapply Forall2_length. Qed.

Lemma mapM_returns {A B} (f : A -> res B) (l : list A) :
  Forall (fun x => exists y, f x = Ok y) l -> exists ys, DataService.mapM f l = Ok ys.
Proof.
  induction 1 as [|x l [y Hy] _ [ys Hys]]; [by exists []|].
  exists (y :: ys). cbn. by rewrite Hy, Hys.
Qed.

Lemma process_record_returns_iff (parseFloat : value -> number) result record :
  (exists p, DataService.process_record parseFloat result record = Ok p)
  <-> exists s, get record "costCode" = VStr s.
Proof.
  unfold DataService.process_record.
  destruct (get record "costCode") as [| | | |s|]; cbn; split;
    intros [x Hx]; try discriminate; eauto.
Qed.

(** The number of rows that the successful results carry. *)
Lemma processRecords_count_aux (parseFloat : value -> number)
    (results : list QueryResult.t) (parts : list (list (gmap string value))) :
  Forall2 (fun result part =>
             (if QueryResult.success result
              then DataService.mapM (DataService.process_record parseFloat result)
                     (QueryResult.data result)
              else Ok []) = Ok part) results parts ->
  length (concat parts)
  = sum_list (List.map (fun result =>
                if QueryResult.success result
                then length (QueryResult.data result) else 0) results).
Proof.
  induction 1 as [|result part results parts Hpart _ IH]; [reflexivity|].
  cbn [concat List.map sum_list sum_list_with]. rewrite length_app, IH. f_equal.
  destruct (QueryResult.success result).
  - by apply mapM_length in Hpart.
  - by injection Hpart as <-.
Qed.

(** X16.  Record processing returns exactly when every row of every
    successful result has a string as its cost code; it then returns one
    record for each of those rows, and nothing for the failed results. *)
Theorem processRecords_returns_iff_string_codes (parseFloat : value -> number)
    (results : list QueryResult.t) :
  (exists out,
     DataService._processRecords parseFloat results = Ok out
     /\ length out
        = sum_list (List.map (fun result =>
                      if QueryResult.success result
                      then length (QueryResult.data result) else 0) results))
  <-> Forall (fun result =>
                QueryResult.success result = true ->
                Forall (fun record => exists s, get record "costCode" = VStr s)
                       (QueryResult.data result))
             results.
Proof.
  unfold DataService._processRecords. split.
  - intros (out & Hout & _).
    destruct (DataService.mapM _ results) as [parts|] eqn:Hparts; [|discriminate].
    apply mapM_Ok in Hparts. clear Hout.
    induction Hparts as [|result part results parts Hpart _ IH]; constructor; [|exact IH].
    intros Hs. rewrite Hs in Hpart. apply mapM_Ok in Hpart.
    rewrite Forall_forall. intros record Hrec.
    apply list_elem_of_lookup in Hrec as [i Hi].
    destruct (Forall2_lookup_l _ _ _ _ _ Hpart Hi) as (p & _ & Hp).
    apply (process_record_returns_iff parseFloat result record). eauto.
  - intros Hall.
    destruct (mapM_returns
                (fun result =>
                   if QueryResult.success result
                   then DataService.mapM (DataService.process_record parseFloat result)
                          (QueryResult.data result)
                   else Ok []) results) as [parts Hparts].
    { eapply Forall_impl; [exact Hall|]. intros result Hres. cbv beta in *.
      destruct (QueryResult.success result); [|eauto].
      apply mapM_returns. eapply Forall_impl; [exact (Hres eq_refl)|].
      intros record Hrec. by apply process_record_returns_iff. }
    rewrite Hparts. cbn [bind]. eexists. split; [reflexivity|].
    apply (processRecords_count_aux parseFloat). by apply mapM_Ok.
Qed.

Lemma processRecords_returns_iff_string_codes_witness :
  exists out,
    DataService._processRecords Fixtures.parse_float
      [Fixtures.from_pta; Fixtures.from_pmb] = Ok out
    /\ length out = 3.
Proof.
  apply (proj2 (processRecords_returns_iff_string_codes Fixtures.parse_float
                  [Fixtures.from_pta; Fixtures.from_pmb])).
  unfold Fixtures.from_pta, Fixtures.from_pmb.
  constructor.
  { intros _. cbn [QueryResult.data].
    constructor; [eexists; vm_compute; reflexivity|constructor]. }
  constructor; [|constructor].
  intros _. cbn [QueryResult.data].
  constructor; [eexists; vm_compute; reflexivity|].
  constructor; [eexists; vm_compute; reflexivity|constructor].
Defined.

(** ** costCodeService.js: deduplication *)

Lemma normalize_of_string (s : string) :
  CostCodeService.normalize (VStr s) = Ok (CostCodeService.normalize_string s).
Proof.
  unfold CostCodeService.normalize. cbn.
  destruct (bool_decide (s = "")) eqn:Hs; cbn; [|reflexivity].
  apply bool_decide_eq_true in Hs. by subst s.
Qed.

Lemma dedup_step_string (seen : gset string) (unique : list string) (c : string) :
  CostCodeService.dedup_step (seen, unique) (VStr c)
  = Ok (if negb (bool_decide (CostCodeService.normalize_string c = ""))
           && negb (bool_decide (CostCodeService.normalize_string c ∈ seen))
        then ({[CostCodeService.normalize_string c]} ∪ seen, unique ++ [c])
        else (seen, unique)).
Proof.
  unfold CostCodeService.dedup_step. rewrite normalize_of_string. cbn [bind fst snd].
  by destruct (_ && _).
Qed.

Lemma NoDup_fmap_app_disjoint {A B} (f : A -> B) (l k : list A) (x : A) (y : B) :
  NoDup (f <$> (l ++ k)) -> x ∈ k -> y ∈ f <$> l -> y <> f x.
Proof.
  rewrite fmap_app. intros (_ & Hdisj & _)%NoDup_app Hx Hy ->.
  apply (Hdisj _ Hy). apply list_elem_of_fmap. eauto.
Qed.

(** The traversal of a list of strings: what is appended to [unique]. *)
Lemma dedup_fold (codes : list string) (seen : gset string) (unique : list string) :
  (forall n, n ∈ seen <-> n ∈ CostCodeService.normalize_string <$> unique) ->
  NoDup (CostCodeService.normalize_string <$> unique) ->
  exists new,
    foldM CostCodeService.dedup_step (VStr <$> codes) (seen, unique)
    = Ok (list_to_set (CostCodeService.normalize_string <$> new) ∪ seen, unique ++ new)
    /\ NoDup (CostCodeService.normalize_string <$> (unique ++ new))
    /\ (forall a, a ∈ new ->
          CostCodeService.normalize_string a <> ""
          /\ List.find (fun c => bool_decide (CostCodeService.normalize_string c
                                              = CostCodeService.normalize_string a))
                       codes = Some a)
    /\ (forall c, c ∈ codes -> CostCodeService.normalize_string c <> "" ->
          CostCodeService.normalize_string c
          ∈ CostCodeService.normalize_string <$> (unique ++ new)).
Proof.
  revert seen unique. induction codes as [|c cs IH]; intros seen unique Hseen Hnd.
  - exists []. rewrite app_nil_r. cbn. split_and!; try done.
    + f_equal. f_equal. set_solver.
    + by intros a ?%elem_of_nil.
    + by intros c ?%elem_of_nil.
  - cbn [fmap list_fmap foldM]. rewrite dedup_step_string. cbn [bind].
    destruct (negb (bool_decide (CostCodeService.normalize_string c = ""))
              && negb (bool_decide (CostCodeService.normalize_string c ∈ seen)))
      eqn:Hfresh.
    + apply andb_true_iff in Hfresh as [Hne Hnew].
      apply negb_true_iff, bool_decide_eq_false in Hne, Hnew.
      destruct (IH ({[CostCodeService.normalize_string c]} ∪ seen) (unique ++ [c]))
        as (new & Heq & Hnd' & Hfirst & Hcover).
      { intros n. rewrite fmap_app, elem_of_app, elem_of_union, Hseen. cbn.
        rewrite elem_of_singleton, list_elem_of_singleton. tauto. }
      { rewrite fmap_app. apply NoDup_app. split_and!; [exact Hnd| |apply NoDup_singleton].
        intros n Hn. cbn. rewrite list_elem_of_singleton. intros ->.
        by apply Hnew, Hseen. }
      exists (c :: new). rewrite <- app_assoc in Heq, Hnd', Hcover.
      change ([c] ++ new) with (c :: new) in Heq, Hnd', Hcover.
      split_and!.
      * rewrite Heq. f_equal. f_equal. rewrite fmap_cons, list_to_set_cons. set_solver.
      * exact Hnd'.
      * intros a [->|Ha]%elem_of_cons.
        -- split; [exact Hne|]. cbn. by rewrite bool_decide_eq_true_2.
        -- destruct (Hfirst a Ha) as [Hna Hfind]. split; [exact Hna|].
           cbn [List.find]. rewrite bool_decide_eq_false_2; [exact Hfind|].
           apply (NoDup_fmap_app_disjoint _ (unique ++ [c]) new a).
           ++ by rewrite <- app_assoc.
           ++ exact Ha.
           ++ rewrite fmap_app, elem_of_app. right. cbn. by left.
      * intros c' [->|Hc']%elem_of_cons Hn'.
        -- rewrite fmap_app, elem_of_app. right. cbn. by left.
        -- by apply Hcover.
    + destruct (IH seen unique Hseen Hnd) as (new & Heq & Hnd' & Hfirst & Hcover).
      exists new. split_and!; [exact Heq|exact Hnd'| |].
      * intros a Ha. destruct (Hfirst a Ha) as [Hna Hfind]. split; [exact Hna|].
        cbn [List.find]. rewrite bool_decide_eq_false_2; [exact Hfind|].
        apply andb_false_iff in Hfresh as [Hc|Hc];
          apply negb_false_iff, bool_decide_eq_true in Hc.
        -- congruence.
        -- apply (NoDup_fmap_app_disjoint _ unique new a _ Hnd' Ha). by apply Hseen.
      * intros c' [->|Hc']%elem_of_cons Hn'; [|by apply Hcover].
        apply andb_false_iff in Hfresh as [Hc|Hc];
          apply negb_false_iff, bool_decide_eq_true in Hc; [done|].
        rewrite fmap_app, elem_of_app. left. by apply Hseen.
Qed.

(** X17.  For string codes [deduplicateCodes] returns, sorted, one code
    for each normal form that occurs in the input and is not empty: the
    first code of the input that has that form, in its original text.  No
    two codes of the result have the same normal form. *)
Theorem deduplicateCodes_keeps_first_of_each_form (codes : list string) :
  exists out,
    CostCodeService.deduplicateCodes (VStr <$> codes) = Ok out
    /\ Sorted String.le out
    /\ NoDup (CostCodeService.normalize_string <$> out)
    /\ (forall a, a ∈ out ->
          CostCodeService.normalize_string a <> ""
          /\ List.find (fun c => bool_decide (CostCodeService.normalize_string c
                                              = CostCodeService.normalize_string a))
                       codes = Some a)
    /\ (forall c, c ∈ codes -> CostCodeService.normalize_string c <> "" ->
          exists a, a ∈ out
                    /\ CostCodeService.normalize_string a
                       = CostCodeService.normalize_string c).
Proof.
  destruct (dedup_fold codes ∅ []) as (new & Heq & Hnd & Hfirst & Hcover).
  { intros n. cbn. rewrite elem_of_nil. set_solver. }
  { constructor. }
  cbn [app] in *.
  exists (merge_sort String.le new). unfold CostCodeService.deduplicateCodes.
  rewrite Heq. cbn [bind snd]. split_and!.
  - reflexivity.
  - apply Sorted_merge_sort; apply _.
  - by rewrite merge_sort_Permutation.
  - intros a Ha. rewrite merge_sort_Permutation in Ha. by apply Hfirst.
  - intros c Hc Hn. apply Hcover, list_elem_of_fmap in Hn as (a & Ha & Hin); [|exact Hc].
    exists a. by rewrite merge_sort_Permutation.
Qed.

(** ** costCodeService.js: grouping by category *)

Lemma getCategoryFromCode_string (s : string) :
  exists category, CostCodeService.getCategoryFromCode (VStr s) = Ok category.
Proof.
  unfold CostCodeService.getCategoryFromCode. rewrite normalize_of_string.
  cbn [bind]. eauto.
Qed.

Lemma group_fold (codes : list string) (pre : list string)
    (grouped : gmap string (list value)) :
  (forall category,
     grouped !! category
     = match filter (fun s => CostCodeService.getCategoryFromCode (VStr s) = Ok category)
                    pre with
       | [] => None
       | l => Some (VStr <$> l)
       end) ->
  exists grouped',
    foldM CostCodeService.group_step (VStr <$> codes) grouped = Ok grouped'
    /\ forall category,
         grouped' !! category
         = match filter (fun s => CostCodeService.getCategoryFromCode (VStr s)
                                  = Ok category) (pre ++ codes) with
           | [] => None
           | l => Some (VStr <$> l)
           end.
Proof.
  revert pre grouped. induction codes as [|c cs IH]; intros pre grouped Hinv.
  - exists grouped. rewrite app_nil_r. by split.
  - cbn [fmap list_fmap foldM]. unfold CostCodeService.group_step at 1.
    destruct (getCategoryFromCode_string c) as [k Hk]. rewrite Hk. cbn [bind].
    replace (pre ++ c :: cs) with ((pre ++ [c]) ++ cs) by by rewrite <- app_assoc.
    apply IH. intros category. rewrite filter_app, filter_cons, filter_nil.
    specialize (Hinv category).
    destruct (decide (category = k)) as [->|Hne].
    + rewrite decide_True by exact Hk. rewrite lookup_insert_eq.
      destruct (filter _ pre) as [|x l] eqn:Hf.
      * by rewrite Hinv, lookup_insert_eq.
      * rewrite Hinv. cbv iota. rewrite Hinv. cbn [default app].
        change (x :: l ++ [c]) with ((x :: l) ++ [c]). rewrite fmap_app. reflexivity.
    + rewrite decide_False by (rewrite Hk; intros [= ->]; contradiction).
      rewrite app_nil_r, lookup_insert_ne by done.
      destruct (grouped !! k); [exact Hinv|].
      by rewrite lookup_insert_ne.
Qed.

(** X18.  [groupByCategory] on string codes returns an object that has,
    for each category to which some code belongs, the codes of that
    category in the order of the input, and no property for any other
    category: no group is empty and no code is lost or repeated. *)
Theorem groupByCategory_groups_in_order (codes : list string) :
  exists grouped,
    CostCodeService.groupByCategory (VStr <$> codes) = Ok grouped
    /\ forall category,
         grouped !! category
         = match filter (fun s => CostCodeService.getCategoryFromCode (VStr s)
                                  = Ok category) codes with
           | [] => None
           | l => Some (VStr <$> l)
           end.
Proof.
  apply (group_fold codes [] ∅). intros category. by rewrite filter_nil, lookup_empty.
Qed.
